(** * The NGN/USD price oracle client: a shallow embedding of
      [src/core/NGNUSDOracle.js] and the properties of its access layer.

    The class [NGNUSDOracle] keeps an endpoint pool, a transport handle, two
    cached static values and a listener registry in one mutable object, and
    reaches a remote price feed through [ethers].  The embedding threads that
    object, the host's timers and an observable trace (console lines, timer
    waits, provider calls) through a state-and-exception monad.  The remote
    provider and the host clock are a parameter of every operation. *)

From Stdlib Require Import ZArith NArith List String Ascii Bool Lia.
From Stdlib Require Import RelationClasses.
From Stdlib Require Import Floats.SpecFloat DecimalString.
Import ListNotations.

Local Open Scope string_scope.
Local Open Scope Z_scope.

(** ** JavaScript values and builtins used by the client *)

Module Js.

(** A variable that holds a value of a known shape, [null] or [undefined]. *)
Inductive t (A : Type) : Type :=
| Null
| Undefined
| Val (a : A).
Arguments Null {A}.
Arguments Undefined {A}.
Arguments Val {A} a.

(** [v === null] *)
Definition isNull {A} (v : t A) : bool :=
  match v with Null => true | _ => false end.

(** *** Numbers: IEEE 754 binary64 *)

Definition number := spec_float.
Definition prec : Z := 53.
Definition emax : Z := 1024.

Definition NaN : number := S754_nan.
Definition Infinity : number := S754_infinity false.
Definition posZero : number := S754_zero false.

(** The Number value for an integer: round to nearest, ties to even. *)
Definition ofZ (z : Z) : number := binary_normalize prec emax z 0 false.

Definition div (x y : number) : number := SFdiv prec emax x y.
Definition mul (x y : number) : number := SFmul prec emax x y.

(** [Number(v)] for a BigInt, [undefined] or [null]. *)
Definition Number_ (v : t Z) : number :=
  match v with
  | Val z => ofZ z
  | Undefined => NaN
  | Null => posZero
  end.

(** [Math.pow(10, d)] for [d] a cached decimals value: a Number holding a
    non-negative integer, or [undefined] (then the exponent is NaN), or [null]
    (then it is 0).  ECMA-262 leaves [Math.pow] implementation-approximated.
    For [d <= 22] the power is a binary64 number and engines return it; the
    model takes the correctly rounded power throughout, of which an engine
    may return a neighbour for [d > 22]: what is proved of the value of a
    rate is therefore stated for [d <= 22] only. *)
Definition pow10 (d : t N) : number :=
  match d with
  | Val n => ofZ (10 ^ Z.of_N n)
  | Undefined => NaN
  | Null => ofZ 1
  end.

(** The exact value of a finite number as an integer, truncated toward zero. *)
Definition truncate (x : number) : option Z :=
  match x with
  | S754_zero _ => Some 0
  | S754_finite s m e =>
      let a := if 0 <=? e then Z.pos m * 2 ^ e else Z.pos m / 2 ^ (- e) in
      Some (if s then - a else a)
  | _ => None
  end.

(** *** Strings *)

Definition stringOfZ (z : Z) : string := NilZero.string_of_int (Z.to_int z).

Fixpoint prefix (p s : string) : bool :=
  match p, s with
  | EmptyString, _ => true
  | String a p', String b s' => Ascii.eqb a b && prefix p' s'
  | String _ _, EmptyString => false
  end.

(** [s.includes(sub)] *)
Fixpoint includes (s sub : string) : bool :=
  prefix sub s ||
  match s with
  | EmptyString => false
  | String _ s' => includes s' sub
  end.

Fixpoint zeros (n : nat) : string :=
  match n with
  | O => ""
  | S k => "0" ++ zeros k
  end.

(** Left-pad a decimal numeral with zeros up to [width] characters. *)
Definition padLeft (width : nat) (s : string) : string :=
  zeros (width - String.length s)%nat ++ s.

(** *** [Number.prototype.toString] for finite values of at least 10^21

    The shortest decimal [s * 10^(n-k)] with [k] digits that rounds back to
    the number, written in exponent notation. *)

Definition roundTrips (x : number) (s p : Z) : bool :=
  SFeqb x (ofZ (s * 10 ^ p)).

(** Candidates [(distance, s, n)] with [k] digits for the integer [X]. *)
Definition candidates (x : number) (X : Z) (k n : Z) : list (Z * Z * Z) :=
  let p := n - k in
  let q := X / 10 ^ p in
  filter (fun c => let '(_, s, _) := c in
                   (10 ^ (k - 1) <=? s) && (s <? 10 ^ k) && roundTrips x s p)
         [ (Z.abs (q * 10 ^ p - X), q, n);
           (Z.abs ((q + 1) * 10 ^ p - X), q + 1, n) ].

Definition closer (a b : Z * Z * Z) : Z * Z * Z :=
  let '(da, sa, _) := a in
  let '(db, sb, _) := b in
  if da <? db then a
  else if db <? da then b
  else if Z.even sa then a else b.

Fixpoint shortest (fuel : nat) (x : number) (X : Z) (D : Z) (k : Z)
  : option (Z * Z * Z) :=
  match fuel with
  | O => None
  | S fuel' =>
      match (candidates x X k D ++ candidates x X k (D + 1))%list with
      | c :: cs => let '(_, s, n) := fold_left closer cs c in Some (s, n, k)
      | [] => shortest fuel' x X D (k + 1)
      end
  end.

Definition exponentNotation (s n k : Z) : string :=
  let digits := stringOfZ s in
  let e := "e+" ++ stringOfZ (n - 1) in
  match digits with
  | String d rest =>
      if k =? 1 then String d e else String d ("." ++ rest ++ e)
  | EmptyString => e
  end.

Definition toStringLarge (x : number) (X : Z) : string :=
  let D := Z.of_nat (String.length (stringOfZ X)) in
  match shortest 17 x X D 1 with
  | Some (s, n, k) => exponentNotation s n k
  | None => stringOfZ X
  end.

(** *** [Number.prototype.toFixed(f)] *)

(** The integer [n] for which [n / 10^f] is closest to [m * 2^e]; the larger
    one of two. *)
Definition nearestScaled (m : positive) (e : Z) (f : nat) : Z :=
  let scaled := Z.pos m * 10 ^ Z.of_nat f in
  if 0 <=? e then scaled * 2 ^ e
  else (2 * scaled + 2 ^ (- e)) / 2 ^ (- e + 1).

(** The digits of [n] with a point before the last [f] of them. *)
Definition fixedDigits (n : Z) (f : nat) : string :=
  let m := padLeft (f + 1)%nat (stringOfZ n) in
  match f with
  | O => m
  | _ =>
      let k := String.length m in
      substring 0 (k - f)%nat m ++ "." ++ substring (k - f)%nat f m
  end.

Definition toFixed (x : number) (f : nat) : string :=
  match x with
  | S754_nan => "NaN"
  | S754_infinity false => "Infinity"
  | S754_infinity true => "-Infinity"
  | S754_zero _ => fixedDigits 0 f
  | S754_finite s m e =>
      let sign := if s then "-" else "" in
      let X := if 0 <=? e then Z.pos m * 2 ^ e else Z.pos m / 2 ^ (- e) in
      if 10 ^ 21 <=? X
      then sign ++ toStringLarge (S754_finite false m e) X
      else sign ++ fixedDigits (nearestScaled m e f) f
  end.

(** *** Errors and completions *)

(** [error.code]: absent, a number or a string. *)
Inductive ErrorCode : Type :=
| NoCode
| NumCode (z : Z)
| StrCode (s : string).

(** A thrown value, with the fields the client inspects.  The two optional
    messages are the results of the chains [error.info?.error?.message] and
    [error.error?.message]: [None] when a link is missing. *)
Record Error : Type := {
  name : string;
  message : string;
  code : ErrorCode;
  infoErrorMessage : option string;
  errorMessage : option string
}.

Definition TypeError (msg : string) : Error :=
  {| name := "TypeError"; message := msg; code := NoCode;
     infoErrorMessage := None; errorMessage := None |}.

Definition RangeError (msg : string) : Error :=
  {| name := "RangeError"; message := msg; code := NoCode;
     infoErrorMessage := None; errorMessage := None |}.

Inductive Completion (A : Type) : Type :=
| Return (a : A)
| Throw (e : Error).
Arguments Return {A} a.
Arguments Throw {A} e.

(** *** [new Date(ms).toISOString()] *)

(** TimeClip: the time value in milliseconds, or [None] for an invalid date. *)
Definition timeClip (t : number) : option Z :=
  match truncate t with
  | Some ms => if Z.abs ms <=? 8640000000000000 then Some ms else None
  | None => None
  end.

(** Year, month and day of the proleptic Gregorian calendar for a day number
    counted from 1970-01-01. *)
Definition civilFromDays (days : Z) : Z * Z * Z :=
  let z := days + 719468 in
  let era := z / 146097 in
  let doe := z - era * 146097 in
  let yoe := (doe - doe / 1460 + doe / 36524 - doe / 146096) / 365 in
  let doy := doe - (365 * yoe + yoe / 4 - yoe / 100) in
  let mp := (5 * doy + 2) / 153 in
  let d := doy - (153 * mp + 2) / 5 + 1 in
  let m := if mp <? 10 then mp + 3 else mp - 9 in
  let y := yoe + era * 400 + (if m <=? 2 then 1 else 0) in
  (y, m, d).

Definition digitsOf (width : nat) (z : Z) : string :=
  padLeft width (stringOfZ z).

Definition isoYear (y : Z) : string :=
  if (0 <=? y) && (y <=? 9999) then digitsOf 4 y
  else (if y <? 0 then "-" else "+") ++ digitsOf 6 (Z.abs y).

Definition isoString (ms : Z) : string :=
  let '(y, m, d) := civilFromDays (ms / 86400000) in
  let r := ms mod 86400000 in
  isoYear y ++ "-" ++ digitsOf 2 m ++ "-" ++ digitsOf 2 d ++ "T" ++
  digitsOf 2 (r / 3600000) ++ ":" ++ digitsOf 2 (r / 60000 mod 60) ++ ":" ++
  digitsOf 2 (r / 1000 mod 60) ++ "." ++ digitsOf 3 (r mod 1000) ++ "Z".

Definition toISOString (t : number) : Completion string :=
  match timeClip t with
  | Some ms => Return (isoString ms)
  | None => Throw (RangeError "Invalid time value")
  end.

End Js.

(** ** The class [NGNUSDOracle] *)

Module NGNUSDOracle.
Import Js.

Definition RPC_ENDPOINTS : list string :=
  [ "https://mainnet.base.org";
    "https://base.llamarpc.com";
    "https://base.drpc.org";
    "https://base.meowrpc.com" ].

(** *** What the provider returns *)

(** The tuple of [latestRoundData()]. *)
Record RoundData : Type := {
  rd_roundId : Z;
  rd_answer : Z;
  rd_startedAt : Z;
  rd_updatedAt : Z;
  rd_answeredInRound : Z
}.

(** A decoded [AnswerUpdated] log. *)
Record EventLog : Type := {
  log_blockNumber : Z;
  log_transactionHash : string;
  log_current : Z;
  log_roundId : Z;
  log_updatedAt : Z
}.

(** A call made through the transport handle.  Block heights and ranges are
    Numbers holding integers, hence [Z]; the lower bound of a log query may be
    NaN ([None]) and its upper bound [undefined]. *)
Inductive Request : Type :=
| Decimals
| Description
| LatestAnswer
| LatestRoundData
| GetBlockNumber
| QueryFilter (fromBlock : option Z) (toBlock : Js.t Z).

(** A handler passed to [contract.on]. *)
Definition Listener := nat.

(** The remote provider and the host, as the client sees them.  The answer to
    a provider call may depend on how many calls were made before it and on
    the endpoint the handle is bound to ([None]: no URL at that index). *)
Record Host : Type := {
  ORACLE_CONTRACT_ADDRESS : option string;
  decimals : nat -> option string -> Completion N;
  description : nat -> option string -> Completion string;
  latestAnswer : nat -> option string -> Completion Z;
  latestRoundData : nat -> option string -> Completion RoundData;
  getBlockNumber : nat -> option string -> Completion Z;
  queryFilter :
    nat -> option string -> option Z -> Js.t Z -> Completion (list EventLog);
  (** the promise of [contract.on(eventName, _)] rejects with this message *)
  onRejects : option string -> string -> option string;
  (** [contract.removeAllListeners()] throws *)
  removeAllListenersThrows : option string -> bool;
  (** [new Date().toISOString()] *)
  now : nat -> string
}.

(** *** The object *)

Record JsonRpcProvider : Type := { url : option string }.

Record Contract : Type := {
  target : option string;
  runner : JsonRpcProvider;
  listeners : list (string * Listener)
}.

Record Wallet : Type := { privateKey : string; walletProvider : JsonRpcProvider }.

Record Oracle : Type := {
  rpcIndex : Z;
  rpcEndpoints : list string;
  provider : JsonRpcProvider;
  wallet : Wallet;
  contract : Contract;
  cachedDecimals : Js.t N;
  cachedDescription : Js.t string;
  eventListeners : list Listener;
  (** a [Map]: keys in insertion order *)
  activeListeners : list (string * Listener);
  (** the timer returned by [setInterval], once assigned *)
  monitorInterval : option nat
}.

(** *** What the client returns *)

Record Price : Type := {
  ngnToUsd : number;
  usdToNgn : number;
  p_decimals : Js.t N;
  p_description : Js.t string;
  formattedPrice : string;
  reversePrice : string;
  timestamp : string
}.

Record Round : Type := {
  r_roundId : string;
  r_answer : number;
  r_ngnToUsd : number;
  r_usdToNgn : number;
  r_formattedPrice : string;
  r_reversePrice : string;
  r_startedAt : number;
  r_updatedAt : number;
  r_answeredInRound : string;
  r_updatedAtFormatted : string
}.

Record HistoricalEvent : Type := {
  h_blockNumber : Z;
  h_transactionHash : string;
  h_roundId : string;
  h_ngnToUsd : number;
  h_usdToNgn : number;
  h_formattedPrice : string;
  h_reversePrice : string;
  h_updatedAt : number;
  h_updatedAtFormatted : string
}.

(** *** Observable effects *)

(** One constructor per [console.log] / [console.error] call site, carrying
    the values interpolated there. *)
Inductive ConsoleLine : Type :=
| OracleInitialized (address : option string)
| UsingEndpoint (u : option string)
| RotatedTo (u : option string)
| Reestablishing
| ReestablishFailed (eventName msg : string)
| RetryRotating (rateLimit : bool) (attempt retries : nat)
| PriceError (e : Error)
| RoundError (e : Error)
| ListenersDisabled
| QueryingHistory (blockRange : Z)
| QueryingBatches (n : nat)
| BatchError (from to : Z) (msg : string)
| FoundEvents (n : nat)
| HistoryError (e : Error)
| MonitorStarting (intervalMs : Z)
| MonitorError (msg : string)
| MonitorStopped
| RatesHeader
| RatesLine (s : string)
| LastChecked (s : string).

Inductive Effect : Type :=
| Console (l : ConsoleLine)
| Sleep (ms : Z)
| Call (u : option string) (r : Request).

(** The object together with the host state it acts on. *)
Record World : Type := {
  self : Oracle;
  (** provider calls made so far *)
  calls : nat;
  (** running interval timers: identifier and period *)
  timers : list (nat * Z);
  nextTimer : nat;
  trace : list Effect
}.

(** *** Field updates *)

Definition withSelf (f : Oracle -> Oracle) (w : World) : World :=
  {| self := f (self w); calls := calls w; timers := timers w;
     nextTimer := nextTimer w; trace := trace w |}.

Definition emit (e : Effect) (w : World) : World :=
  {| self := self w; calls := calls w; timers := timers w;
     nextTimer := nextTimer w; trace := (trace w ++ [e])%list |}.

Definition setRpcIndex (i : Z) (o : Oracle) : Oracle :=
  {| rpcIndex := i; rpcEndpoints := rpcEndpoints o; provider := provider o;
     wallet := wallet o; contract := contract o;
     cachedDecimals := cachedDecimals o;
     cachedDescription := cachedDescription o;
     eventListeners := eventListeners o;
     activeListeners := activeListeners o;
     monitorInterval := monitorInterval o |}.

Definition setProvider (p : JsonRpcProvider) (o : Oracle) : Oracle :=
  {| rpcIndex := rpcIndex o; rpcEndpoints := rpcEndpoints o; provider := p;
     wallet := wallet o; contract := contract o;
     cachedDecimals := cachedDecimals o;
     cachedDescription := cachedDescription o;
     eventListeners := eventListeners o;
     activeListeners := activeListeners o;
     monitorInterval := monitorInterval o |}.

Definition setContract (c : Contract) (o : Oracle) : Oracle :=
  {| rpcIndex := rpcIndex o; rpcEndpoints := rpcEndpoints o;
     provider := provider o; wallet := wallet o; contract := c;
     cachedDecimals := cachedDecimals o;
     cachedDescription := cachedDescription o;
     eventListeners := eventListeners o;
     activeListeners := activeListeners o;
     monitorInterval := monitorInterval o |}.

Definition setCachedDecimals (v : Js.t N) (o : Oracle) : Oracle :=
  {| rpcIndex := rpcIndex o; rpcEndpoints := rpcEndpoints o;
     provider := provider o; wallet := wallet o; contract := contract o;
     cachedDecimals := v;
     cachedDescription := cachedDescription o;
     eventListeners := eventListeners o;
     activeListeners := activeListeners o;
     monitorInterval := monitorInterval o |}.

Definition setCachedDescription (v : Js.t string) (o : Oracle) : Oracle :=
  {| rpcIndex := rpcIndex o; rpcEndpoints := rpcEndpoints o;
     provider := provider o; wallet := wallet o; contract := contract o;
     cachedDecimals := cachedDecimals o;
     cachedDescription := v;
     eventListeners := eventListeners o;
     activeListeners := activeListeners o;
     monitorInterval := monitorInterval o |}.

Definition setActiveListeners (m : list (string * Listener)) (o : Oracle)
  : Oracle :=
  {| rpcIndex := rpcIndex o; rpcEndpoints := rpcEndpoints o;
     provider := provider o; wallet := wallet o; contract := contract o;
     cachedDecimals := cachedDecimals o;
     cachedDescription := cachedDescription o;
     eventListeners := eventListeners o;
     activeListeners := m;
     monitorInterval := monitorInterval o |}.

Definition setMonitorInterval (t : option nat) (o : Oracle) : Oracle :=
  {| rpcIndex := rpcIndex o; rpcEndpoints := rpcEndpoints o;
     provider := provider o; wallet := wallet o; contract := contract o;
     cachedDecimals := cachedDecimals o;
     cachedDescription := cachedDescription o;
     eventListeners := eventListeners o;
     activeListeners := activeListeners o;
     monitorInterval := t |}.

Definition setListeners (l : list (string * Listener)) (c : Contract)
  : Contract :=
  {| target := target c; runner := runner c; listeners := l |}.

(** *** The monad of the asynchronous methods *)

Definition M (A : Type) : Type := World -> Completion A * World.

Definition ret {A} (a : A) : M A := fun w => (Return a, w).

Definition throw {A} (e : Error) : M A := fun w => (Throw e, w).

Definition bind {A B} (c : M A) (k : A -> M B) : M B :=
  fun w =>
    match c w with
    | (Return a, w') => k a w'
    | (Throw e, w') => (Throw e, w')
    end.

(** [try { c } catch (error) { handler error }] *)
Definition tryCatch {A} (c : M A) (handler : Error -> M A) : M A :=
  fun w =>
    match c w with
    | (Return a, w') => (Return a, w')
    | (Throw e, w') => handler e w'
    end.

(** A synchronous method that does not throw. *)
Definition run (f : World -> World) : M unit := fun w => (Return tt, f w).

Definition console (l : ConsoleLine) : M unit := run (emit (Console l)).

(** [await new Promise(resolve => setTimeout(resolve, ms))] *)
Definition sleep (ms : Z) : M unit := run (emit (Sleep ms)).

(** [limit(task)] for [limit = pLimit(1)]: a first-in first-out gate of
    capacity one.  A method of this module is followed from its call to its
    return with no other caller in between, so a task is admitted as soon as
    it is queued.  The gate does not cover [processEvents] or a getter
    called directly; callers that overlap there are the subject of
    [Overlap]. *)
Definition limit {A} (task : M A) : M A := task.

Declare Scope oracle_scope.
Delimit Scope oracle_scope with oracle.
Notation "x <- c ;; k" := (bind c (fun x => k))
  (at level 61, c at next level, right associativity) : oracle_scope.
Notation "c ;;; k" := (bind c (fun _ => k))
  (at level 61, right associativity) : oracle_scope.
Local Open Scope oracle_scope.

(** [array[i]] for a Number index. *)
Definition index {A} (l : list A) (i : Z) : option A :=
  if i <? 0 then None else nth_error l (Z.to_nat i).

(** [map.set(k, v)] on a [Map] kept in insertion order. *)
Fixpoint mapSet (k : string) (v : Listener) (m : list (string * Listener))
  : list (string * Listener) :=
  match m with
  | [] => [(k, v)]
  | (k', v') :: m' =>
      if String.eqb k k' then (k, v) :: m' else (k', v') :: mapSet k v m'
  end.

(** [map.get(k)] *)
Fixpoint mapGet (k : string) (m : list (string * Listener)) : option Listener :=
  match m with
  | [] => None
  | (k', v) :: m' => if String.eqb k k' then Some v else mapGet k m'
  end.

Section Methods.

Variable host : Host.

(** [new ethers.Contract(ORACLE_CONTRACT_ADDRESS, ORACLE_ABI, provider)] *)
Definition newContract (p : JsonRpcProvider) : Contract :=
  {| target := ORACLE_CONTRACT_ADDRESS host; runner := p; listeners := [] |}.

(** [initializeProvider()] *)
Definition initializeProvider (w : World) : World :=
  let o := self w in
  let u := index (rpcEndpoints o) (rpcIndex o) in
  emit (Console (UsingEndpoint u)) (withSelf (setProvider {| url := u |}) w).

(** [constructor(privateKey)] *)
Definition construct (key : string) : World :=
  let u := index RPC_ENDPOINTS 0 in
  let p := {| url := u |} in
  {| self :=
       {| rpcIndex := 0;
          rpcEndpoints := RPC_ENDPOINTS;
          provider := p;
          wallet := {| privateKey := key; walletProvider := p |};
          contract := newContract p;
          cachedDecimals := Null;
          cachedDescription := Null;
          eventListeners := [];
          activeListeners := [];
          monitorInterval := None |};
     calls := 0;
     timers := [];
     nextTimer := 0;
     trace := [ Console (UsingEndpoint u);
                Console (OracleInitialized (ORACLE_CONTRACT_ADDRESS host)) ] |}.

(** [removeAllListeners()]: an error of the handle is ignored. *)
Definition removeAllListeners (w : World) : World :=
  let c := contract (self w) in
  if removeAllListenersThrows host (url (runner c)) then w
  else withSelf (setContract (setListeners [] c)) w.

(** One round of the [forEach] of [reestablishEventListeners()].
    [contract.on] is asynchronous and is called without [await]: it never
    throws into the [try], so the [catch] and its console line are never
    reached and the registry entry is always written.  A subscription whose
    promise rejects installs nothing; one that succeeds is shown on the
    handle here, although it is installed only once its promise settles. *)
Definition reestablishOne (w : World) (entry : string * Listener) : World :=
  let '(eventName, listener) := entry in
  let c := contract (self w) in
  let subscribed :=
    match onRejects host (url (runner c)) eventName with
    | Some _ => c
    | None => setListeners (listeners c ++ [(eventName, listener)])%list c
    end in
  withSelf
    (fun o =>
       setActiveListeners (mapSet eventName listener (activeListeners o))
         (setContract subscribed o))
    w.

(** [reestablishEventListeners()] *)
Definition reestablishEventListeners (w : World) : World :=
  let entries := activeListeners (self w) in
  fold_left reestablishOne entries (withSelf (setActiveListeners []) w).

(** [rotateRPC()].  The remainder by an empty pool is NaN in JavaScript and
    the dividend here; either way no endpoint is found at that index. *)
Definition rotateRPC (w : World) : World :=
  let w1 := removeAllListeners w in
  let o1 := self w1 in
  let w2 :=
    withSelf
      (setRpcIndex
         (Z.rem (rpcIndex o1 + 1) (Z.of_nat (List.length (rpcEndpoints o1)))))
      w1 in
  let w3 := initializeProvider w2 in
  let w4 := withSelf (fun o => setContract (newContract (provider o)) o) w3 in
  let w5 :=
    match activeListeners (self w4) with
    | [] => w4
    | _ :: _ => reestablishEventListeners (emit (Console Reestablishing) w4)
    end in
  emit (Console (RotatedTo (index (rpcEndpoints (self w5)) (rpcIndex (self w5)))))
    w5.

(** *** Error classification of [executeWithRetry] *)

Definition isRateLimit (e : Error) : bool :=
  match infoErrorMessage e with
  | Some m => includes m "rate limit"
  | None => false
  end
  || match code e with
     | NumCode z => z =? -32016
     | _ => false
     end.

Definition isFilterError (e : Error) : bool :=
  match errorMessage e with
  | Some m => includes m "filter not found"
  | None => false
  end.

Definition isTransient (e : Error) : bool := isRateLimit e || isFilterError e.

(** [Math.min(1000 * Math.pow(2, i), 10000)] *)
Definition backoffDelay (i : nat) : Z := Z.min (1000 * 2 ^ Z.of_nat i) 10000.

(** The body of the [if] for a rate-limit or filter error at attempt [i]. *)
Definition rotateAndWait (e : Error) (i retries : nat) (w : World) : World :=
  emit (Sleep (backoffDelay i))
    (rotateRPC (emit (Console (RetryRotating (isRateLimit e) (S i) retries)) w)).

(** The [for] loop of [executeWithRetry]: [remaining] rounds are left, the
    next one has index [i].  Leaving the loop returns [undefined]. *)
Fixpoint retryLoop {A} (fn : M A) (retries remaining i : nat) : M (Js.t A) :=
  fun w =>
    match remaining with
    | O => (Return Undefined, w)
    | S remaining' =>
        match fn w with
        | (Return a, w1) => (Return (Val a), w1)
        | (Throw e, w1) =>
            if isRateLimit e || isFilterError e then
              retryLoop fn retries remaining' (S i) (rotateAndWait e i retries w1)
            else if Nat.eqb (S i) retries then (Throw e, w1)
            else retryLoop fn retries remaining' (S i) w1
        end
    end.

(** [executeWithRetry(fn, retries = 3)] *)
Definition executeWithRetry {A} (fn : M A) (retries : nat) : M (Js.t A) :=
  retryLoop fn retries retries 0.

(** *** Calls through the transport handle *)

Definition noteCall (u : option string) (r : Request) (w : World) : World :=
  {| self := self w; calls := S (calls w); timers := timers w;
     nextTimer := nextTimer w; trace := (trace w ++ [Call u r])%list |}.

(** [await this.contract.method()] *)
Definition contractCall {A} (r : Request)
  (respond : nat -> option string -> Completion A) : M A :=
  fun w =>
    let u := url (runner (contract (self w))) in
    (respond (calls w) u, noteCall u r w).

(** [await this.provider.getBlockNumber()] *)
Definition providerCall {A} (r : Request)
  (respond : nat -> option string -> Completion A) : M A :=
  fun w =>
    let u := url (provider (self w)) in
    (respond (calls w) u, noteCall u r w).

(** *** Cached static values *)

(** [getDecimals()], followed from its call to its return with no other code
    of the object running in between.  The call is suspended between the
    test of the slot and the write; [Overlap.begin] and [Overlap.resume] give
    it await by await, for calls that overlap. *)
Definition getDecimals : M (Js.t N) :=
  fun w =>
    match cachedDecimals (self w) with
    | Null =>
        match executeWithRetry (contractCall Decimals (decimals host)) 3 w with
        | (Return v, w1) => (Return v, withSelf (setCachedDecimals v) w1)
        | (Throw e, w1) => (Throw e, w1)
        end
    | v => (Return v, w)
    end.

(** [getDescription()], followed from its call to its return like
    [getDecimals]. *)
Definition getDescription : M (Js.t string) :=
  fun w =>
    match cachedDescription (self w) with
    | Null =>
        match
          executeWithRetry (contractCall Description (description host)) 3 w
        with
        | (Return v, w1) => (Return v, withSelf (setCachedDescription v) w1)
        | (Throw e, w1) => (Throw e, w1)
        end
    | v => (Return v, w)
    end.

(** *** The quote *)

(** [Number(answer) / Math.pow(10, decimals)] *)
Definition inverseRate (answer : Js.t Z) (d : Js.t N) : number :=
  div (Number_ answer) (pow10 d).

(** [1 / ngnToUsd] *)
Definition directRate (inverse : number) : number := div (ofZ 1) inverse.

Definition formatDirect (direct : number) : string :=
  "1 USD = " ++ toFixed direct 2 ++ " NGN".

Definition formatInverse (inverse : number) : string :=
  "1 NGN = " ++ toFixed inverse 6 ++ " USD".

(** [new Date().toISOString()] *)
Definition currentTime : M string := fun w => (Return (now host (calls w)), w).

(** [getCurrentPrice()] *)
Definition getCurrentPrice : M Price :=
  limit
    (tryCatch
       (d <- getDecimals ;;
        descr <- getDescription ;;
        latest <- executeWithRetry (contractCall LatestAnswer (latestAnswer host)) 3 ;;
        let inverse := inverseRate latest d in
        let direct := directRate inverse in
        stamp <- currentTime ;;
        ret {| ngnToUsd := inverse;
               usdToNgn := direct;
               p_decimals := d;
               p_description := descr;
               formattedPrice := formatDirect direct;
               reversePrice := formatInverse inverse;
               timestamp := stamp |})
       (fun error => console (PriceError error) ;;; throw error)).

(** Reading a property of [roundData]. *)
Definition roundField (roundData : Js.t RoundData) (field : string)
  : M RoundData :=
  match roundData with
  | Val r => ret r
  | Undefined =>
      throw (TypeError ("Cannot read properties of undefined (reading '"
                          ++ field ++ "')"))
  | Null =>
      throw (TypeError ("Cannot read properties of null (reading '"
                          ++ field ++ "')"))
  end.

(** Lift a completion of a builtin into the monad. *)
Definition complete {A} (c : Completion A) : M A := fun w => (c, w).

(** [getLatestRoundData()] *)
Definition getLatestRoundData : M Round :=
  limit
    (tryCatch
       (d <- getDecimals ;;
        roundData <-
          executeWithRetry (contractCall LatestRoundData (latestRoundData host)) 3 ;;
        r <- roundField roundData "answer" ;;
        let inverse := inverseRate (Val (rd_answer r)) d in
        let direct := directRate inverse in
        formatted <- complete (toISOString (mul (ofZ (rd_updatedAt r)) (ofZ 1000))) ;;
        ret {| r_roundId := stringOfZ (rd_roundId r);
               r_answer := ofZ (rd_answer r);
               r_ngnToUsd := inverse;
               r_usdToNgn := direct;
               r_formattedPrice := formatDirect direct;
               r_reversePrice := formatInverse inverse;
               r_startedAt := ofZ (rd_startedAt r);
               r_updatedAt := ofZ (rd_updatedAt r);
               r_answeredInRound := stringOfZ (rd_answeredInRound r);
               r_updatedAtFormatted := formatted |})
       (fun error => console (RoundError error) ;;; throw error)).

(** [setupEventListeners()]: the subscription is commented out in the source;
    what is left is one console line. *)
Definition setupEventListeners : M unit := console ListenersDisabled.

(** *** Historical events *)

(** The callback of [events.map] in [processEvents]. *)
Definition processEvent (d : Js.t N) (event : Js.t EventLog)
  : Completion HistoricalEvent :=
  match event with
  | Val ev =>
      let inverse := inverseRate (Val (log_current ev)) d in
      let direct := directRate inverse in
      match toISOString (mul (ofZ (log_updatedAt ev)) (ofZ 1000)) with
      | Return formatted =>
          Return {| h_blockNumber := log_blockNumber ev;
                    h_transactionHash := log_transactionHash ev;
                    h_roundId := stringOfZ (log_roundId ev);
                    h_ngnToUsd := inverse;
                    h_usdToNgn := direct;
                    h_formattedPrice := formatDirect direct;
                    h_reversePrice := formatInverse inverse;
                    h_updatedAt := ofZ (log_updatedAt ev);
                    h_updatedAtFormatted := formatted |}
      | Throw e => Throw e
      end
  | Undefined =>
      Throw (TypeError "Cannot read properties of undefined (reading 'args')")
  | Null =>
      Throw (TypeError "Cannot read properties of null (reading 'args')")
  end.

(** [array.map(f)] for a callback that may throw. *)
Fixpoint mapCompletion {A B} (f : A -> Completion B) (l : list A)
  : Completion (list B) :=
  match l with
  | [] => Return []
  | a :: l' =>
      match f a with
      | Throw e => Throw e
      | Return b =>
          match mapCompletion f l' with
          | Throw e => Throw e
          | Return bs => Return (b :: bs)
          end
      end
  end.

(** [processEvents(events)] *)
Definition processEvents (events : Js.t (list (Js.t EventLog)))
  : M (list HistoricalEvent) :=
  d <- getDecimals ;;
  match events with
  | Val l => complete (mapCompletion (processEvent d) l)
  | Undefined =>
      throw (TypeError "Cannot read properties of undefined (reading 'map')")
  | Null =>
      throw (TypeError "Cannot read properties of null (reading 'map')")
  end.

Record Batch : Type := { from : Z; to : Z }.

(** The loop [for (let i = fromBlock; i <= currentBlock; i += batchSize)]
    that fills [batches]; [None] when [fuel] rounds do not reach its end. *)
Fixpoint batchLoop (fuel : nat) (i currentBlock batchSize : Z)
  : option (list Batch) :=
  match fuel with
  | O => None
  | S fuel' =>
      if i <=? currentBlock then
        match batchLoop fuel' (i + batchSize) currentBlock batchSize with
        | Some rest =>
            Some ({| from := i; to := Z.min (i + batchSize - 1) currentBlock |}
                    :: rest)
        | None => None
        end
      else Some []
  end.

(** [batches] for a known head; the loop is given as many rounds as there are
    blocks in the range, plus one for the exit test.  [None]: the loop never
    ends (see [makeBatches_diverges]). *)
Definition makeBatches (fromBlock currentBlock batchSize : Z)
  : option (list Batch) :=
  batchLoop (S (Z.to_nat (currentBlock - fromBlock + 1)))
    fromBlock currentBlock batchSize.

(** [currentBlock - blockRange]; NaN ([None]) for an [undefined] head. *)
Definition subtractRange (currentBlock : Js.t Z) (blockRange : Z) : option Z :=
  match currentBlock with
  | Val head => Some (head - blockRange)
  | Undefined => None
  | Null => Some (0 - blockRange)
  end.

(** What [queryHistoricalEvents] asks of the provider once the head is known:
    one window, or the windows of [batches]. *)
Inductive QueryPlan : Type :=
| SingleWindow (fromBlock : option Z) (toBlock : Js.t Z)
| Batches (batches : list Batch).

Definition planQueries (currentBlock : Js.t Z) (blockRange batchSize : Z)
  : option QueryPlan :=
  let fromBlock := subtractRange currentBlock blockRange in
  if blockRange <=? batchSize then Some (SingleWindow fromBlock currentBlock)
  else
    match fromBlock, currentBlock with
    | Some i, Val head =>
        match makeBatches i head batchSize with
        | Some batches => Some (Batches batches)
        | None => None
        end
    | Some i, Null =>
        match makeBatches i 0 batchSize with
        | Some batches => Some (Batches batches)
        | None => None
        end
    | _, _ => Some (Batches [])
    end.

(** The task queued for one batch. *)
Definition queryBatch (batch : Batch) : M (Js.t (list EventLog)) :=
  limit
    (tryCatch
       (executeWithRetry
          (contractCall (QueryFilter (Some (from batch)) (Val (to batch)))
             (fun k u =>
                queryFilter host k u (Some (from batch)) (Val (to batch))))
          3)
       (fun error =>
          console (BatchError (from batch) (to batch) (message error)) ;;;
          ret (Val []))).

(** [Promise.all(batches.map(queryBatch))]: the gate runs the tasks in the
    order they were queued. *)
Fixpoint queryBatches (batches : list Batch)
  : M (list (Js.t (list EventLog))) :=
  match batches with
  | [] => ret []
  | b :: bs =>
      r <- queryBatch b ;;
      rs <- queryBatches bs ;;
      ret (r :: rs)
  end.

(** [batchResults.flat()] *)
Definition flat (results : list (Js.t (list EventLog))) : list (Js.t EventLog) :=
  flat_map
    (fun r =>
       match r with
       | Val l => map Val l
       | Undefined => [Undefined]
       | Null => [Null]
       end)
    results.

Definition asElements (events : Js.t (list EventLog))
  : Js.t (list (Js.t EventLog)) :=
  match events with
  | Val l => Val (map Val l)
  | Undefined => Undefined
  | Null => Null
  end.

(** [queryHistoricalEvents(blockRange = 100, batchSize = 50)].  The promise
    of [processEvents] is returned without [await], so its rejection is not
    caught by the enclosing [try].  [None]: the call never completes. *)
Definition queryHistoricalEvents (blockRange batchSize : Z) (w0 : World)
  : option (Completion (list HistoricalEvent) * World) :=
  let failed (error : Error) (w : World) :=
    Some (Return [], emit (Console (HistoryError error)) w) in
  let w := emit (Console (QueryingHistory blockRange)) w0 in
  match executeWithRetry (providerCall GetBlockNumber (getBlockNumber host)) 3 w with
  | (Throw error, w1) => failed error w1
  | (Return currentBlock, w1) =>
      match planQueries currentBlock blockRange batchSize with
      | None => None
      | Some (SingleWindow fromBlock toBlock) =>
          match
            limit
              (executeWithRetry
                 (contractCall (QueryFilter fromBlock toBlock)
                    (fun k u => queryFilter host k u fromBlock toBlock))
                 3)
              w1
          with
          | (Throw error, w2) => failed error w2
          | (Return events, w2) => Some (processEvents (asElements events) w2)
          end
      | Some (Batches batches) =>
          let w2 := emit (Console (QueryingBatches (List.length batches))) w1 in
          match queryBatches batches w2 with
          | (Throw error, w3) => failed error w3
          | (Return batchResults, w3) =>
              let events := flat batchResults in
              let w4 := emit (Console (FoundEvents (List.length events))) w3 in
              Some (processEvents (Val events) w4)
          end
      end
  end.

(** *** Monitoring *)

(** [displayCurrentPrice()] *)
Definition displayCurrentPrice : M unit :=
  priceData <- getCurrentPrice ;;
  console RatesHeader ;;;
  console (RatesLine (formattedPrice priceData)) ;;;
  console (RatesLine (reversePrice priceData)) ;;;
  console (LastChecked (timestamp priceData)).

(** The callback given to [setInterval]. *)
Definition monitorTick : M unit :=
  tryCatch displayCurrentPrice
    (fun error => console (MonitorError (message error))).

(** [this.monitorInterval = setInterval(callback, intervalMs)] *)
Definition setInterval (intervalMs : Z) (w : World) : World :=
  let id := nextTimer w in
  {| self := setMonitorInterval (Some id) (self w);
     calls := calls w;
     timers := (timers w ++ [(id, intervalMs)])%list;
     nextTimer := S id;
     trace := trace w |}.

(** [monitorPrice(intervalMs = 60000)] *)
Definition monitorPrice (intervalMs : Z) : M unit :=
  console (MonitorStarting intervalMs) ;;;
  displayCurrentPrice ;;;
  run (setInterval intervalMs).

(** The host fires timer [id]: its callback runs if the timer is still set. *)
Definition fire (id : nat) : M unit :=
  fun w =>
    if existsb (fun t => Nat.eqb (fst t) id) (timers w)
    then monitorTick w
    else (Return tt, w).

(** [clearInterval(id)] *)
Definition clearInterval (id : nat) (w : World) : World :=
  {| self := self w;
     calls := calls w;
     timers := filter (fun t => negb (Nat.eqb (fst t) id)) (timers w);
     nextTimer := nextTimer w;
     trace := trace w |}.

(** [stopMonitoring()] *)
Definition stopMonitoring (w : World) : World :=
  let w1 :=
    match monitorInterval (self w) with
    | Some id => emit (Console MonitorStopped) (clearInterval id w)
    | None => w
    end in
  withSelf (setActiveListeners []) (removeAllListeners w1).

End Methods.

End NGNUSDOracle.

(** ** Providers and errors used for concrete runs *)

Module Scenario.
Import Js NGNUSDOracle.

(** A JSON-RPC rate-limit error as [ethers] reports it. *)
Definition rateLimited : Error :=
  {| name := "Error";
     message := "could not coalesce error";
     code := NumCode (-32016);
     infoErrorMessage := Some "over rate limit";
     errorMessage := None |}.

(** An expired log filter. *)
Definition filterExpired : Error :=
  {| name := "Error";
     message := "filter not found";
     code := StrCode "UNKNOWN_ERROR";
     infoErrorMessage := None;
     errorMessage := Some "filter not found" |}.

(** A failure that is neither: the endpoint cannot be reached. *)
Definition networkDown : Error :=
  {| name := "Error";
     message := "failed to detect network";
     code := StrCode "NETWORK_ERROR";
     infoErrorMessage := None;
     errorMessage := None |}.

Definition feedAddress : string := "0xdfbb5Cbc88E382de007bfe6CE99C388176ED80aD".

Definition sampleLog (block : Z) : EventLog :=
  {| log_blockNumber := block;
     log_transactionHash := "0xabc";
     log_current := 689;
     log_roundId := block;
     log_updatedAt := 1699564800 |}.

(** A healthy feed: every call answers; the latest raw reading is [answer].
    A log query returns one event, at the first block of its window. *)
Definition steady (answer : Z) : Host :=
  {| ORACLE_CONTRACT_ADDRESS := Some feedAddress;
     decimals := fun _ _ => Return 6%N;
     description := fun _ _ => Return "NGN / USD";
     latestAnswer := fun _ _ => Return answer;
     latestRoundData := fun _ _ =>
       Return {| rd_roundId := 18446744073709562776;
                 rd_answer := answer;
                 rd_startedAt := 1699564800;
                 rd_updatedAt := 1699564800;
                 rd_answeredInRound := 18446744073709562776 |};
     getBlockNumber := fun _ _ => Return 1000;
     queryFilter := fun _ _ fromBlock _ =>
       match fromBlock with
       | Some b => Return [sampleLog b]
       | None => Return []
       end;
     onRejects := fun _ _ => None;
     removeAllListenersThrows := fun _ => false;
     now := fun _ => "2024-01-15T10:30:00.000Z" |}.

(** Every endpoint answers every call with the same error. *)
Definition failing (e : Error) : Host :=
  {| ORACLE_CONTRACT_ADDRESS := Some feedAddress;
     decimals := fun _ _ => Throw e;
     description := fun _ _ => Throw e;
     latestAnswer := fun _ _ => Throw e;
     latestRoundData := fun _ _ => Throw e;
     getBlockNumber := fun _ _ => Throw e;
     queryFilter := fun _ _ _ _ => Throw e;
     onRejects := fun _ _ => None;
     removeAllListenersThrows := fun _ => false;
     now := fun _ => "2024-01-15T10:30:00.000Z" |}.

(** A healthy feed, except that log queries starting at block [bad] always
    fail with [e]. *)
Definition badWindow (bad : Z) (e : Error) : Host :=
  {| ORACLE_CONTRACT_ADDRESS := Some feedAddress;
     decimals := decimals (steady 689);
     description := description (steady 689);
     latestAnswer := latestAnswer (steady 689);
     latestRoundData := latestRoundData (steady 689);
     getBlockNumber := getBlockNumber (steady 689);
     queryFilter := fun k u fromBlock toBlock =>
       match fromBlock with
       | Some b => if b =? bad then Throw e
                   else queryFilter (steady 689) k u fromBlock toBlock
       | None => queryFilter (steady 689) k u fromBlock toBlock
       end;
     onRejects := fun _ _ => None;
     removeAllListenersThrows := fun _ => false;
     now := now (steady 689) |}.

Definition key : string :=
  "0x0000000000000000000000000000000000000000000000000000000000000001".

(** The object right after [new NGNUSDOracle(key)]. *)
Definition fresh (host : Host) : World := construct host key.

(** A feed whose first call, whatever it asks, meets a rate limit; every
    later call is answered as by [steady answer]. *)
Definition recovering (answer : Z) : Host :=
  let after {A} (respond : nat -> option string -> Completion A) :=
    fun (k : nat) (u : option string) =>
      match k with
      | O => Throw rateLimited
      | S _ => respond k u
      end in
  {| ORACLE_CONTRACT_ADDRESS := Some feedAddress;
     decimals := after (decimals (steady answer));
     description := after (description (steady answer));
     latestAnswer := after (latestAnswer (steady answer));
     latestRoundData := after (latestRoundData (steady answer));
     getBlockNumber := after (getBlockNumber (steady answer));
     queryFilter := fun k u fromBlock toBlock =>
       match k with
       | O => Throw rateLimited
       | S _ => queryFilter (steady answer) k u fromBlock toBlock
       end;
     onRejects := fun _ _ => None;
     removeAllListenersThrows := fun _ => false;
     now := now (steady answer) |}.

(** A healthy feed on which one event name cannot be subscribed to. *)
Definition refusing (eventName : string) : Host :=
  {| ORACLE_CONTRACT_ADDRESS := ORACLE_CONTRACT_ADDRESS (steady 689);
     decimals := decimals (steady 689);
     description := description (steady 689);
     latestAnswer := latestAnswer (steady 689);
     latestRoundData := latestRoundData (steady 689);
     getBlockNumber := getBlockNumber (steady 689);
     queryFilter := queryFilter (steady 689);
     onRejects := fun _ name =>
       if String.eqb name eventName then Some "unknown fragment" else None;
     removeAllListenersThrows := fun _ => false;
     now := now (steady 689) |}.

(** An object on which two listeners were registered by hand. *)
Definition listening (host : Host) : World :=
  let entries := [("AnswerUpdated", 0%nat); ("NewRound", 1%nat)] in
  withSelf
    (fun o =>
       setActiveListeners entries
         (setContract (setListeners entries (contract o)) o))
    (fresh host).

(** A feed that answers the first call and rate-limits every later one. *)
Definition rationed : Host :=
  let once {A} (respond : nat -> option string -> Completion A) :=
    fun (k : nat) (u : option string) =>
      match k with
      | O => respond k u
      | S _ => Throw rateLimited
      end in
  {| ORACLE_CONTRACT_ADDRESS := Some feedAddress;
     decimals := once (decimals (steady 689));
     description := once (description (steady 689));
     latestAnswer := once (latestAnswer (steady 689));
     latestRoundData := once (latestRoundData (steady 689));
     getBlockNumber := once (getBlockNumber (steady 689));
     queryFilter := fun _ _ _ _ => Throw rateLimited;
     onRejects := fun _ _ => None;
     removeAllListenersThrows := fun _ => false;
     now := now (steady 689) |}.

(** A feed that rate-limits its first three calls and is healthy from then
    on. *)
Definition burst : Host :=
  let late {A} (respond : nat -> option string -> Completion A) :=
    fun (k : nat) (u : option string) =>
      if Nat.ltb k 3 then Throw rateLimited else respond k u in
  {| ORACLE_CONTRACT_ADDRESS := Some feedAddress;
     decimals := late (decimals (steady 689));
     description := late (description (steady 689));
     latestAnswer := late (latestAnswer (steady 689));
     latestRoundData := late (latestRoundData (steady 689));
     getBlockNumber := late (getBlockNumber (steady 689));
     queryFilter := fun k u fromBlock toBlock =>
       if Nat.ltb k 3 then Throw rateLimited
       else queryFilter (steady 689) k u fromBlock toBlock;
     onRejects := fun _ _ => None;
     removeAllListenersThrows := fun _ => false;
     now := now (steady 689) |}.

(** A feed that answers its second call and rate-limits every other one. *)
Definition secondOnly : Host :=
  let second {A} (respond : nat -> option string -> Completion A) :=
    fun (k : nat) (u : option string) =>
      if Nat.eqb k 1 then respond k u else Throw rateLimited in
  {| ORACLE_CONTRACT_ADDRESS := Some feedAddress;
     decimals := second (decimals (steady 689));
     description := second (description (steady 689));
     latestAnswer := second (latestAnswer (steady 689));
     latestRoundData := second (latestRoundData (steady 689));
     getBlockNumber := second (getBlockNumber (steady 689));
     queryFilter := fun _ _ _ _ => Throw rateLimited;
     onRejects := fun _ _ => None;
     removeAllListenersThrows := fun _ => false;
     now := now (steady 689) |}.

End Scenario.

(** ** Notions used to state the properties *)

Module Notions.
Import Js NGNUSDOracle Scenario.

(** *** The endpoint pool *)

(** The pool, the position in it and the endpoint the handle is bound to. *)
Definition samePool (w w' : World) : Prop :=
  rpcIndex (self w') = rpcIndex (self w) /\
  rpcEndpoints (self w') = rpcEndpoints (self w) /\
  provider (self w') = provider (self w) /\
  runner (contract (self w')) = runner (contract (self w)).

(** The size of the pool, as the Number [rpcEndpoints.length]. *)
Definition poolSize (w : World) : Z :=
  Z.of_nat (List.length (rpcEndpoints (self w))).

Definition validIndex (w : World) : Prop :=
  0 <= rpcIndex (self w) < poolSize w.

(** A valid index stays valid. *)
Definition staysValid (w w' : World) : Prop := validIndex w -> validIndex w'.

(** [k] rotations in a row. *)
Fixpoint rotations (host : Host) (k : nat) (w : World) : World :=
  match k with
  | O => w
  | S k' => rotateRPC host (rotations host k' w)
  end.

(** *** The retry executor *)

(** The operation fails on every attempt, each time with a rate-limit or
    filter error. *)
Definition alwaysTransient {A} (fn : M A) : Prop :=
  forall w, exists e w', fn w = (Throw e, w') /\ isTransient e = true.

(** *** Relations kept along a computation *)

(** Whatever the completion, the world after [c] is related by [R] to the one
    before it. *)
Definition keeps (R : World -> World -> Prop) {A} (c : M A) : Prop :=
  forall w, R w (snd (c w)).

(** *** The static value cache *)

Inductive Key : Type := DecimalsKey | DescriptionKey.

(** A provider call that fetches the value of key [k]. *)
Definition fetchOf (k : Key) (e : Effect) : bool :=
  match k, e with
  | DecimalsKey, Call _ Decimals => true
  | DescriptionKey, Call _ Description => true
  | _, _ => false
  end.

(** How often the value of [k] has been fetched so far. *)
Definition fetches (k : Key) (w : World) : nat :=
  List.length (filter (fetchOf k) (trace w)).

(** The key holds a value: anything but [null]. *)
Definition populated (k : Key) (w : World) : bool :=
  match k with
  | DecimalsKey => negb (isNull (cachedDecimals (self w)))
  | DescriptionKey => negb (isNull (cachedDescription (self w)))
  end.

Definition sameValue (k : Key) (w w' : World) : Prop :=
  match k with
  | DecimalsKey => cachedDecimals (self w') = cachedDecimals (self w)
  | DescriptionKey => cachedDescription (self w') = cachedDescription (self w)
  end.

(** From [w] to [w'] a populated key has kept its value and has not been
    fetched again. *)
Definition settled (k : Key) (w w' : World) : Prop :=
  populated k w = true -> sameValue k w w' /\ fetches k w' = fetches k w.

(** Neither cache slot changed and no value was fetched. *)
Definition quiet (w w' : World) : Prop :=
  cachedDecimals (self w') = cachedDecimals (self w) /\
  cachedDescription (self w') = cachedDescription (self w) /\
  forall k, fetches k w' = fetches k w.

(** An update of the object that leaves the cache slots and the timer field
    alone. *)
Definition keepsSlots (f : Oracle -> Oracle) : Prop :=
  forall o,
    cachedDecimals (f o) = cachedDecimals o /\
    cachedDescription (f o) = cachedDescription o /\
    monitorInterval (f o) = monitorInterval o.

(** A request for one of the static values. *)
Definition isFetch (r : Request) : bool :=
  match r with
  | Decimals | Description => true
  | _ => false
  end.

(** A call that is not a fetch of [k]. *)
Definition otherRequest (k : Key) (r : Request) : Prop :=
  forall u, fetchOf k (Call u r) = false.

(** The operations a collaborator can invoke on the object, and the timer
    callback the host can fire. *)
Inductive Operation : Type :=
| GetDecimals
| GetDescription
| GetCurrentPrice
| GetLatestRoundData
| SetupEventListeners
| QueryHistoricalEvents (blockRange batchSize : Z)
| MonitorPrice (intervalMs : Z)
| TimerFires (id : nat)
| StopMonitoring.

(** The world after an operation has run to completion; [None] when it never
    completes. *)
Definition perform (host : Host) (op : Operation) (w : World) : option World :=
  match op with
  | GetDecimals => Some (snd (getDecimals host w))
  | GetDescription => Some (snd (getDescription host w))
  | GetCurrentPrice => Some (snd (getCurrentPrice host w))
  | GetLatestRoundData => Some (snd (getLatestRoundData host w))
  | SetupEventListeners => Some (snd (setupEventListeners w))
  | QueryHistoricalEvents blockRange batchSize =>
      option_map snd (queryHistoricalEvents host blockRange batchSize w)
  | MonitorPrice intervalMs => Some (snd (monitorPrice host intervalMs w))
  | TimerFires id => Some (snd (fire host id w))
  | StopMonitoring => Some (stopMonitoring host w)
  end.

Fixpoint performAll (host : Host) (ops : list Operation) (w : World)
  : option World :=
  match ops with
  | [] => Some w
  | op :: ops' =>
      match perform host op w with
      | Some w' => performAll host ops' w'
      | None => None
      end
  end.

(** [n] calls of the same method in a row, with their completions. *)
Fixpoint repeatedly {A} (c : M A) (n : nat) (w : World)
  : list (Completion A) * World :=
  match n with
  | O => ([], w)
  | S n' =>
      let '(r, w1) := c w in
      let '(rs, w2) := repeatedly c n' w1 in
      (r :: rs, w2)
  end.

(** The object after one successful [getCurrentPrice()] on a healthy feed:
    both static values are cached. *)
Definition warmed : World :=
  snd (getCurrentPrice (steady 689) (fresh (steady 689))).

(** *** The monitor's schedule *)

(** The running timers and the timer the object remembers are the same. *)
Definition sameSchedule (w w' : World) : Prop :=
  timers w' = timers w /\
  nextTimer w' = nextTimer w /\
  monitorInterval (self w') = monitorInterval (self w).

(** *** The windows of a historical query *)

(** [batches] cuts the blocks from [i] to [currentBlock] into consecutive
    windows of [batchSize] blocks, the last one ending at [currentBlock]. *)
Inductive Partition (batchSize currentBlock : Z) : Z -> list Batch -> Prop :=
| PartitionLast i :
    i <= currentBlock ->
    currentBlock <= i + batchSize - 1 ->
    Partition batchSize currentBlock i [ {| from := i; to := currentBlock |} ]
| PartitionNext i rest :
    i + batchSize - 1 < currentBlock ->
    Partition batchSize currentBlock (i + batchSize) rest ->
    Partition batchSize currentBlock i
      ({| from := i; to := i + batchSize - 1 |} :: rest).

(** *** Push subscriptions *)

(** The registry has an [AnswerUpdated] entry whose handler is installed on
    the current contract. *)
Definition subscribed (w : World) : Prop :=
  exists handler,
    mapGet "AnswerUpdated" (activeListeners (self w)) = Some handler /\
    In ("AnswerUpdated", handler) (listeners (contract (self w))).

(** *** What a trace shows *)

Definition isRotation (e : Effect) : bool :=
  match e with Console (RotatedTo _) => true | _ => false end.

(** The provider calls of a trace, in order. *)
Definition requestsOf (tr : list Effect) : list Request :=
  flat_map (fun e => match e with Call _ r => [r] | _ => [] end) tr.

(** The waits of a trace, in order. *)
Definition waitsOf (tr : list Effect) : list Z :=
  flat_map (fun e => match e with Sleep ms => [ms] | _ => [] end) tr.

(** How many rotations a trace reports. *)
Definition rotationsOf (tr : list Effect) : nat :=
  List.length (filter isRotation tr).

(** The part of the trace of [w'] that was added after [w]. *)
Definition since (w w' : World) : list Effect :=
  skipn (List.length (trace w)) (trace w').

(** *** The quote *)

(** A raw reading of zero at exponent [n] gives the rates 0 and Infinity. *)
Definition zeroReadsInfinity (n : N) : bool :=
  match inverseRate (Val 0) (Val n), directRate (inverseRate (Val 0) (Val n)) with
  | S754_zero false, S754_infinity false => true
  | _, _ => false
  end.

(** *** Steps that only write to the console *)

(** From [w] to [w'] no provider call was made and no timer touched; the
    trace grew by console lines only. *)
Definition chatter (w w' : World) : Prop :=
  calls w' = calls w /\
  timers w' = timers w /\
  nextTimer w' = nextTimer w /\
  exists lines, trace w' = (trace w ++ map Console lines)%list.

(** *** What holds of every object *)

(** A property that, once true, is still true after the step. *)
Definition stays (P : World -> Prop) (w w' : World) : Prop := P w -> P w'.

(** The object is wired as its constructor left it, up to the position in
    the pool: the provider is the endpoint at the current index, the contract
    handle runs on that provider and points at the configured address, no
    listener is registered or installed, and the wallet is connected to a
    provider of the first endpoint. *)
Definition wired (host : Host) (w : World) : Prop :=
  let o := self w in
  rpcEndpoints o = RPC_ENDPOINTS /\
  0 <= rpcIndex o < 4 /\
  url (provider o) = index RPC_ENDPOINTS (rpcIndex o) /\
  runner (contract o) = provider o /\
  target (contract o) = ORACLE_CONTRACT_ADDRESS host /\
  activeListeners o = [] /\
  listeners (contract o) = [] /\
  walletProvider (wallet o) = {| url := index RPC_ENDPOINTS 0 |}.

(** Every running timer was handed out before the next timer id. *)
Definition freshTimers (w : World) : Prop :=
  forall t, In t (timers w) -> (fst t < nextTimer w)%nat.

(** The worlds an object can be in: those a sequence of operations leads to
    from [new NGNUSDOracle(key)]. *)
Definition reachable (host : Host) (w : World) : Prop :=
  exists key ops, performAll host ops (construct host key) = Some w.

(** *** Reads that fail *)

(** The getter of [k] throws [e] from [w], ending in [w']. *)
Definition fetchThrows (host : Host) (k : Key) (w : World) (e : Error)
  (w' : World) : Prop :=
  match k with
  | DecimalsKey => getDecimals host w = (Throw e, w')
  | DescriptionKey => getDescription host w = (Throw e, w')
  end.

(** Both cache slots hold what they held. *)
Definition sameCache (w w' : World) : Prop :=
  cachedDecimals (self w') = cachedDecimals (self w) /\
  cachedDescription (self w') = cachedDescription (self w).

(** The provider answers every call of one kind, on every endpoint, with a
    rate-limit or filter error. *)
Definition alwaysLimited {A} (respond : nat -> option string -> Completion A)
  : Prop :=
  forall k u, exists e, respond k u = Throw e /\ isTransient e = true.

(** *** What a call costs *)

(** The waits of a trace, added up, in milliseconds. *)
Definition totalWait (tr : list Effect) : Z := fold_right Z.add 0 (waitsOf tr).

(** The waits after attempts [i], [i + 1], ... ([remaining] of them). *)
Fixpoint backoffTotal (i remaining : nat) : Z :=
  match remaining with
  | O => 0
  | S remaining' => backoffDelay i + backoffTotal (S i) remaining'
  end.

(** From [w] to [w'] the trace has only grown, by at most [n] provider calls
    and at most [ms] milliseconds of waiting; the call counter has advanced
    by the number of calls made. *)
Definition within (n : nat) (ms : Z) (w w' : World) : Prop :=
  exists l,
    trace w' = (trace w ++ l)%list /\
    calls w' = (calls w + List.length (requestsOf l))%nat /\
    (List.length (requestsOf l) <= n)%nat /\
    0 <= totalWait l <= ms.

(** *** Listeners across a rotation *)

(** Installing the listener of [entry] on a handle bound to [u] succeeds. *)
Definition installs (host : Host) (u : option string)
  (entry : string * Listener) : bool :=
  match onRejects host u (fst entry) with
  | None => true
  | Some _ => false
  end.

(** *** A batched query that meets no error *)

(** The log query asked for one window. *)
Definition windowRequest (b : Batch) : Request :=
  QueryFilter (Some (from b)) (Val (to b)).

(** The world after one call per window through the current handle. *)
Definition windowCalls (batches : list Batch) (w : World) : World :=
  fold_left
    (fun w0 b => noteCall (url (runner (contract (self w0)))) (windowRequest b) w0)
    batches w.

(** *** The requests of a historical query *)

(** The head of the chain is read as [head] at the start of a query over
    [blockRange] blocks from [w], which leaves the world [w1]. *)
Definition headRead (host : Host) (blockRange : Z) (w : World) (head : Z)
  (w1 : World) : Prop :=
  executeWithRetry host (providerCall GetBlockNumber (getBlockNumber host)) 3
    (emit (Console (QueryingHistory blockRange)) w)
  = (Return (Val head), w1).

(** The requests [asked] are those of [wanted], in order, each one made
    between one and three times in a row: a request that fails may be made
    again by the retry. *)
Inductive askedInTurn : list Request -> list Request -> Prop :=
| askedNone : askedInTurn [] []
| askedNext r n wanted asked :
    (1 <= n <= 3)%nat ->
    askedInTurn wanted asked ->
    askedInTurn (r :: wanted) (repeat r n ++ asked).

(** Every log query is answered at once, a window from [f] to [t] with
    [logs f t]. *)
Definition answersLogs (host : Host) (logs : Z -> Z -> list EventLog) : Prop :=
  forall k u f t, queryFilter host k u (Some f) (Val t) = Return (logs f t).

End Notions.

(** ** Getters that overlap *)

(** [getDecimals] and [getDescription] await by await.  A call tests its
    slot and, on [null], hands [executeWithRetry] a call of the contract; it
    is suspended at every [await] (for the answer of the provider, for the
    timer of the back-off), and the slot is written only when the retry has
    resolved.  Between two awaits of one call other code of the same object
    runs: the gate [limit] does not cover [processEvents] or a getter called
    directly, and a server handles its requests concurrently. *)
Module Overlap.
Import Js NGNUSDOracle.

(** The two getters differ in the request, the slot and the type of the
    value. *)
Record Getter (A : Type) : Type := {
  g_request : Request;
  g_respond : Host -> nat -> option string -> Completion A;
  g_slot : Oracle -> Js.t A;
  g_setSlot : Js.t A -> Oracle -> Oracle
}.
Arguments g_request {A} _.
Arguments g_respond {A} _ _ _ _.
Arguments g_slot {A} _ _.
Arguments g_setSlot {A} _ _ _.

Definition decimalsGetter : Getter N :=
  {| g_request := Decimals;
     g_respond := decimals;
     g_slot := cachedDecimals;
     g_setSlot := setCachedDecimals |}.

Definition descriptionGetter : Getter string :=
  {| g_request := Description;
     g_respond := description;
     g_slot := cachedDescription;
     g_setSlot := setCachedDescription |}.

(** Where a call of a getter stands: waiting for the answer to the call of
    round [i] (the answer is the provider's, fixed when the call goes out),
    waiting for the timer set in round [i], or over. *)
Inductive Stage (A : Type) : Type :=
| Awaiting (i : nat) (answer : Completion A)
| Sleeping (i : nat)
| Resolved (v : Js.t A)
| Rejected (e : Error).
Arguments Awaiting {A} i answer.
Arguments Sleeping {A} i.
Arguments Resolved {A} v.
Arguments Rejected {A} e.

Definition inFlight {A} (s : Stage A) : bool :=
  match s with
  | Awaiting _ _ | Sleeping _ => true
  | Resolved _ | Rejected _ => false
  end.

(** The getters call [executeWithRetry] with its default of three rounds. *)
Definition attempts : nat := 3.

Section Getter.

Variable host : Host.
Context {A : Type}.
Variable g : Getter A.

(** [fn()] in round [i]: the call goes out through the handle of the moment
    and the caller waits for its answer. *)
Definition attempt (i : nat) (w : World) : Stage A * World :=
  let '(answer, w1) := contractCall (g_request g) (g_respond g host) w in
  (Awaiting i answer, w1).

(** [this.cached = await ...; return this.cached], once the retry has
    resolved with [v]. *)
Definition settle (v : Js.t A) (w : World) : Stage A * World :=
  (Resolved v, withSelf (g_setSlot g v) w).

(** The head of the [for] loop with [i] rounds done: after the last round
    the retry resolves with [undefined]. *)
Definition round (i : nat) (w : World) : Stage A * World :=
  if Nat.ltb i attempts then attempt i w else settle Undefined w.

(** The call of the getter, up to its first [await]: a slot that is not
    [null] is returned at once. *)
Definition begin (w : World) : Stage A * World :=
  match g_slot g (self w) with
  | Null => round 0 w
  | v => (Resolved v, w)
  end.

(** A suspended call is resumed: the answer has come, or the timer has
    fired. *)
Definition resume (s : Stage A) (w : World) : Stage A * World :=
  match s with
  | Awaiting i (Return a) => settle (Val a) w
  | Awaiting i (Throw e) =>
      if isRateLimit e || isFilterError e then
        (Sleeping i, rotateAndWait host e i attempts w)
      else if Nat.eqb (S i) attempts then (Rejected e, w)
      else round (S i) w
  | Sleeping i => round (S i) w
  | Resolved _ | Rejected _ => (s, w)
  end.

(** [n] resumptions of one call in a row. *)
Fixpoint resumes (n : nat) (p : Stage A * World) : Stage A * World :=
  match n with
  | O => p
  | S n' => resumes n' (resume (fst p) (snd p))
  end.

(** How the call ends for a retry that has run to completion. *)
Definition finish (c : Completion (Js.t A) * World) : Stage A * World :=
  match c with
  | (Return v, w) => settle v w
  | (Throw e, w) => (Rejected e, w)
  end.

(** The object and the calls of the getter made on it so far, in the order
    in which they began. *)
Record Calls : Type := { world : World; pending : list (Stage A) }.

(** One turn of the event loop: a new call of the getter begins, the call
    that began as number [t] is resumed, or other code of the program runs. *)
Inductive Turn : Type :=
| Start
| Resume (t : nat)
| Elsewhere (f : World -> World).

Fixpoint setAt {X} (l : list X) (t : nat) (x : X) : list X :=
  match l, t with
  | [], _ => []
  | _ :: l', O => x :: l'
  | y :: l', S t' => y :: setAt l' t' x
  end.

Definition turn (s : Calls) (e : Turn) : Calls :=
  match e with
  | Start =>
      let '(st, w) := begin (world s) in
      {| world := w; pending := (pending s ++ [st])%list |}
  | Resume t =>
      match nth_error (pending s) t with
      | Some st =>
          let '(st', w) := resume st (world s) in
          {| world := w; pending := setAt (pending s) t st' |}
      | None => s
      end
  | Elsewhere f => {| world := f (world s); pending := pending s |}
  end.

Definition turns (s : Calls) (es : list Turn) : Calls := fold_left turn es s.

(** No call of the getter is suspended. *)
Definition idle (s : Calls) : Prop :=
  forallb (fun st => negb (inFlight st)) (pending s) = true.

(** The other code that runs leaves the slot of the getter alone. *)
Definition apart (es : list Turn) : Prop :=
  forall f, In (Elsewhere f) es ->
            forall w, g_slot g (self (f w)) = g_slot g (self w).

(** How many calls begin in a schedule. *)
Fixpoint starts (es : list Turn) : nat :=
  match es with
  | [] => O
  | Start :: es' => S (starts es')
  | _ :: es' => starts es'
  end.

(** What the other code of a schedule does to the world. *)
Definition elsewhere (es : list Turn) (w : World) : World :=
  fold_left
    (fun w0 e => match e with Elsewhere f => f w0 | _ => w0 end) es w.

End Getter.

(** An object on which no getter has been called. *)
Definition quietObject {A} (w : World) : @Calls A :=
  {| world := w; pending := [] |}.

End Overlap.

(** ** Properties of the access layer *)

Module Properties.
Import Js NGNUSDOracle Scenario Notions.

(** *** The endpoint pool *)

Section Rotation.

Variable host : Host.

Lemma samePool_refl w : samePool w w.
Proof. repeat split. Qed.

Lemma samePool_trans w1 w2 w3 :
  samePool w1 w2 -> samePool w2 w3 -> samePool w1 w3.
Proof. intros (H1 & H2 & H3 & H4) (H5 & H6 & H7 & H8); repeat split; congruence. Qed.

Lemma removeAllListeners_samePool w : samePool w (removeAllListeners host w).
Proof.
  unfold removeAllListeners.
  destruct (removeAllListenersThrows host _); repeat split.
Qed.

Lemma reestablishOne_samePool w entry :
  samePool w (reestablishOne host w entry).
Proof.
  destruct entry as [eventName listener]; unfold reestablishOne.
  destruct (onRejects host _ eventName); repeat split.
Qed.

Lemma reestablish_fold_samePool entries :
  forall w, samePool w (fold_left (reestablishOne host) entries w).
Proof.
  induction entries as [|entry entries IH]; intro w; simpl.
  - apply samePool_refl.
  - eapply samePool_trans; [apply reestablishOne_samePool | apply IH].
Qed.

Lemma reestablishEventListeners_samePool w :
  samePool w (reestablishEventListeners host w).
Proof.
  unfold reestablishEventListeners.
  eapply samePool_trans; [|apply reestablish_fold_samePool].
  repeat split.
Qed.

Lemma rotateRPC_rpcEndpoints w :
  rpcEndpoints (self (rotateRPC host w)) = rpcEndpoints (self w).
Proof.
  unfold rotateRPC.
  destruct (removeAllListeners_samePool w) as (_ & Hpool & _).
  cbn [emit self].
  match goal with
  | |- context [match activeListeners (self ?x) with _ => _ end] =>
      destruct (activeListeners (self x))
  end.
  - cbn. exact Hpool.
  - match goal with
    | |- context [reestablishEventListeners host ?x] =>
        destruct (reestablishEventListeners_samePool x) as (_ & H & _)
    end.
    rewrite H. cbn. exact Hpool.
Qed.

Lemma rotateRPC_rpcIndex w :
  rpcIndex (self (rotateRPC host w)) = Z.rem (rpcIndex (self w) + 1) (poolSize w).
Proof.
  unfold rotateRPC, poolSize.
  destruct (removeAllListeners_samePool w) as (Hidx & Hpool & _).
  cbn [emit self].
  match goal with
  | |- context [match activeListeners (self ?x) with _ => _ end] =>
      destruct (activeListeners (self x))
  end.
  - cbn. rewrite Hidx, Hpool. reflexivity.
  - match goal with
    | |- context [reestablishEventListeners host ?x] =>
        destruct (reestablishEventListeners_samePool x) as (H & _)
    end.
    rewrite H. cbn. rewrite Hidx, Hpool. reflexivity.
Qed.

(** After a rotation the provider and the contract are bound to the endpoint
    at the new index. *)
Lemma rotateRPC_bound w :
  let w' := rotateRPC host w in
  url (provider (self w')) = index (rpcEndpoints (self w')) (rpcIndex (self w')) /\
  runner (contract (self w')) = provider (self w').
Proof.
  cbv zeta.
  rewrite rotateRPC_rpcEndpoints, rotateRPC_rpcIndex.
  unfold rotateRPC, poolSize.
  destruct (removeAllListeners_samePool w) as (Hidx & Hpool & _).
  cbn [emit self].
  match goal with
  | |- context [match activeListeners (self ?x) with _ => _ end] =>
      destruct (activeListeners (self x))
  end.
  - cbn. rewrite Hidx, Hpool. split; reflexivity.
  - match goal with
    | |- context [reestablishEventListeners host ?x] =>
        destruct (reestablishEventListeners_samePool x) as (_ & _ & Hp & Hr)
    end.
    rewrite Hp, Hr. cbn. rewrite Hidx, Hpool. split; reflexivity.
Qed.

Lemma rotateRPC_poolSize w : poolSize (rotateRPC host w) = poolSize w.
Proof. unfold poolSize. rewrite rotateRPC_rpcEndpoints. reflexivity. Qed.

Lemma rotateRPC_valid w : validIndex w -> validIndex (rotateRPC host w).
Proof.
  unfold validIndex. intros H.
  rewrite rotateRPC_poolSize, rotateRPC_rpcIndex.
  rewrite Z.rem_mod_nonneg by lia.
  apply Z.mod_pos_bound. lia.
Qed.

Lemma rotations_poolSize k w : poolSize (rotations host k w) = poolSize w.
Proof.
  induction k as [|k IH]; [reflexivity|].
  cbn [rotations]. rewrite rotateRPC_poolSize. exact IH.
Qed.

Lemma rotations_rpcIndex k w :
  validIndex w ->
  rpcIndex (self (rotations host k w))
  = (rpcIndex (self w) + Z.of_nat k) mod poolSize w.
Proof.
  intros Hv. unfold validIndex in Hv. induction k as [|k IH].
  - cbn [rotations]. rewrite Z.add_0_r. symmetry. apply Z.mod_small. exact Hv.
  - cbn [rotations].
    rewrite rotateRPC_rpcIndex, rotations_poolSize, IH.
    pose proof (Z.mod_pos_bound (rpcIndex (self w) + Z.of_nat k) (poolSize w)).
    rewrite Z.rem_mod_nonneg by lia.
    rewrite Zplus_mod_idemp_l. f_equal. lia.
Qed.

End Rotation.

(** *** The retry executor *)

Section Retry.

Variable host : Host.
Context {A : Type}.
Variable fn : M A.

Lemma retryLoop_return retries k i w a w1 :
  fn w = (Return a, w1) ->
  retryLoop host fn retries (S k) i w = (Return (Val a), w1).
Proof. intros H. cbn [retryLoop]. rewrite H. reflexivity. Qed.

Lemma retryLoop_transient retries k i w e w1 :
  fn w = (Throw e, w1) ->
  isTransient e = true ->
  retryLoop host fn retries (S k) i w
  = retryLoop host fn retries k (S i) (rotateAndWait host e i retries w1).
Proof.
  intros H Ht. cbn [retryLoop]. rewrite H.
  unfold isTransient in Ht. rewrite Ht. reflexivity.
Qed.

Lemma retryLoop_last retries k i w e w1 :
  fn w = (Throw e, w1) ->
  isTransient e = false ->
  S i = retries ->
  retryLoop host fn retries (S k) i w = (Throw e, w1).
Proof.
  intros H Ht Hi. cbn [retryLoop]. rewrite H.
  unfold isTransient in Ht. rewrite Ht.
  subst retries. rewrite Nat.eqb_refl. reflexivity.
Qed.

Lemma retryLoop_again retries k i w e w1 :
  fn w = (Throw e, w1) ->
  isTransient e = false ->
  S i <> retries ->
  retryLoop host fn retries (S k) i w = retryLoop host fn retries k (S i) w1.
Proof.
  intros H Ht Hi. cbn [retryLoop]. rewrite H.
  unfold isTransient in Ht. rewrite Ht.
  apply Nat.eqb_neq in Hi. rewrite Hi. reflexivity.
Qed.

(** With only transient failures the loop runs to its end and the call
    resolves with [undefined], whatever the number of attempts. *)
Lemma retryLoop_transient_undefined :
  alwaysTransient fn ->
  forall k retries i w,
    exists w', retryLoop host fn retries k i w = (Return Undefined, w').
Proof.
  intros Hfn k. induction k as [|k IH]; intros retries i w.
  - exists w. reflexivity.
  - destruct (Hfn w) as (e & w1 & Hw & Ht).
    rewrite (retryLoop_transient _ _ _ _ _ _ Hw Ht). apply IH.
Qed.

(** Three attempts, all transient: the run in full.  Each failure, the third
    one included, is followed by a rotation and a wait. *)
Lemma executeWithRetry_transient_run :
  alwaysTransient fn ->
  forall w,
    exists e1 e2 e3 w1 w2 w3,
      fn w = (Throw e1, w1) /\
      fn (rotateAndWait host e1 0 3 w1) = (Throw e2, w2) /\
      fn (rotateAndWait host e2 1 3 w2) = (Throw e3, w3) /\
      executeWithRetry host fn 3 w
      = (Return Undefined, rotateAndWait host e3 2 3 w3).
Proof.
  intros Hfn w.
  destruct (Hfn w) as (e1 & w1 & H1 & T1).
  destruct (Hfn (rotateAndWait host e1 0 3 w1)) as (e2 & w2 & H2 & T2).
  destruct (Hfn (rotateAndWait host e2 1 3 w2)) as (e3 & w3 & H3 & T3).
  exists e1, e2, e3, w1, w2, w3. repeat split; try assumption.
  unfold executeWithRetry.
  rewrite (retryLoop_transient _ _ _ _ _ _ H1 T1).
  rewrite (retryLoop_transient _ _ _ _ _ _ H2 T2).
  rewrite (retryLoop_transient _ _ _ _ _ _ H3 T3).
  reflexivity.
Qed.

End Retry.

(** A call through the handle fails with a transient error whenever the
    provider answers every such call with one. *)
Lemma contractCall_alwaysTransient {A} (r : Request)
  (respond : nat -> option string -> Completion A) :
  (forall k u, exists e, respond k u = Throw e /\ isTransient e = true) ->
  alwaysTransient (contractCall r respond).
Proof.
  intros H w. unfold contractCall.
  destruct (H (calls w) (url (runner (contract (self w))))) as (e & He & Ht).
  rewrite He. eauto.
Qed.

(** *** Relations kept along a computation *)

Section Frame.

Variable host : Host.
Variable R : World -> World -> Prop.
Context {R_preorder : PreOrder R}.

Lemma keeps_ret {A} (a : A) : keeps R (ret a).
Proof. intro w. reflexivity. Qed.

Lemma keeps_throw {A} e : keeps R (@throw A e).
Proof. intro w. reflexivity. Qed.

Lemma keeps_complete {A} (c : Completion A) : keeps R (complete c).
Proof. intro w. reflexivity. Qed.

Lemma keeps_currentTime : keeps R (currentTime host).
Proof. intro w. reflexivity. Qed.

Lemma keeps_bind {A B} (c : M A) (f : A -> M B) :
  keeps R c -> (forall a, keeps R (f a)) -> keeps R (bind c f).
Proof.
  intros Hc Hf w. unfold bind. specialize (Hc w).
  destruct (c w) as [[a|e] w1]; cbn [snd] in *.
  - etransitivity; [exact Hc | apply Hf].
  - exact Hc.
Qed.

Lemma keeps_tryCatch {A} (c : M A) (h : Error -> M A) :
  keeps R c -> (forall e, keeps R (h e)) -> keeps R (tryCatch c h).
Proof.
  intros Hc Hh w. unfold tryCatch. specialize (Hc w).
  destruct (c w) as [[a|e] w1]; cbn [snd] in *.
  - exact Hc.
  - etransitivity; [exact Hc | apply Hh].
Qed.

Lemma keeps_run (f : World -> World) :
  (forall w, R w (f w)) -> keeps R (run f).
Proof. intros H w. apply H. Qed.

Lemma keeps_limit {A} (c : M A) : keeps R c -> keeps R (limit c).
Proof. exact (fun H => H). Qed.

Hypothesis R_rotateAndWait :
  forall e i retries w, R w (rotateAndWait host e i retries w).

Lemma keeps_retryLoop {A} (fn : M A) retries :
  keeps R fn ->
  forall remaining i, keeps R (retryLoop host fn retries remaining i).
Proof.
  intros Hfn remaining.
  induction remaining as [|remaining IH]; intros i w; cbn [retryLoop].
  - reflexivity.
  - specialize (Hfn w). destruct (fn w) as [[a|e] w1]; cbn [snd] in *.
    + exact Hfn.
    + destruct (isRateLimit e || isFilterError e).
      * etransitivity; [exact Hfn|].
        etransitivity; [apply R_rotateAndWait | apply IH].
      * destruct (Nat.eqb (S i) retries); cbn [snd].
        -- exact Hfn.
        -- etransitivity; [exact Hfn | apply IH].
Qed.

Lemma keeps_executeWithRetry {A} (fn : M A) retries :
  keeps R fn -> keeps R (executeWithRetry host fn retries).
Proof. intro H. apply keeps_retryLoop. exact H. Qed.

End Frame.

(** Apply a lemma of the section above and find the preorder on its own. *)
Ltac framed lem := apply lem; [exact _ | ..].

(** *** Relations kept by a rotation *)

Section Rotating.

Variable host : Host.
Variable R : World -> World -> Prop.
Context {R_preorder : PreOrder R}.

Hypothesis R_emit_console : forall l w, R w (emit (Console l) w).
Hypothesis R_emit_sleep : forall ms w, R w (emit (Sleep ms) w).
Hypothesis R_update : forall f w, keepsSlots f -> R w (withSelf f w).

Lemma kept_removeAllListeners w : R w (removeAllListeners host w).
Proof.
  unfold removeAllListeners.
  destruct (removeAllListenersThrows host _); [reflexivity|].
  apply R_update. intro o. repeat split.
Qed.

Lemma kept_reestablishOne w entry : R w (reestablishOne host w entry).
Proof.
  destruct entry as [eventName listener]. unfold reestablishOne.
  apply R_update. intro o. repeat split.
Qed.

Lemma kept_reestablish_fold entries :
  forall w, R w (fold_left (reestablishOne host) entries w).
Proof.
  induction entries as [|entry entries IH]; intro w; simpl.
  - reflexivity.
  - etransitivity; [apply kept_reestablishOne | apply IH].
Qed.

Lemma kept_reestablishEventListeners w :
  R w (reestablishEventListeners host w).
Proof.
  unfold reestablishEventListeners.
  etransitivity; [|apply kept_reestablish_fold].
  apply R_update. intro o. repeat split.
Qed.

Lemma kept_initializeProvider w : R w (initializeProvider w).
Proof.
  unfold initializeProvider.
  etransitivity; [|apply R_emit_console].
  apply R_update. intro o. repeat split.
Qed.

Lemma kept_rotateRPC w : R w (rotateRPC host w).
Proof.
  unfold rotateRPC.
  etransitivity; [|apply R_emit_console].
  match goal with
  | |- R _ (match activeListeners (self ?x) with _ => _ end) =>
      assert (Hx : R w x)
  end.
  { etransitivity; [apply kept_removeAllListeners|].
    etransitivity; [|apply R_update; intro o; repeat split].
    etransitivity; [|apply kept_initializeProvider].
    apply R_update. intro o. repeat split. }
  match goal with
  | |- R _ (match ?l with _ => _ end) => destruct l
  end.
  - exact Hx.
  - etransitivity; [exact Hx|].
    etransitivity; [apply R_emit_console|].
    apply kept_reestablishEventListeners.
Qed.

Lemma kept_rotateAndWait e i retries w :
  R w (rotateAndWait host e i retries w).
Proof.
  unfold rotateAndWait.
  etransitivity; [apply R_emit_console|].
  etransitivity; [apply kept_rotateRPC|].
  apply R_emit_sleep.
Qed.

End Rotating.

(** *** Relations kept by the cached getters *)

Section Getters.

Variable host : Host.
Variable R : World -> World -> Prop.
Context {R_preorder : PreOrder R}.

Hypothesis R_rotateAndWait :
  forall e i retries w, R w (rotateAndWait host e i retries w).
Hypothesis R_anyCall : forall u r w, R w (noteCall u r w).
Hypothesis R_cacheDecimals :
  forall v w, R w (withSelf (setCachedDecimals v) w).
Hypothesis R_cacheDescription :
  forall v w, R w (withSelf (setCachedDescription v) w).

Lemma kept_getDecimals : keeps R (getDecimals host).
Proof.
  intro w. unfold getDecimals.
  destruct (cachedDecimals (self w)); try reflexivity.
  pose proof (keeps_executeWithRetry host R R_rotateAndWait
                (contractCall Decimals (decimals host)) 3
                (fun w0 => R_anyCall (url (runner (contract (self w0)))) Decimals w0)
                w) as H.
  destruct (executeWithRetry host _ 3 w) as [[v|e] w1]; cbn [snd] in *.
  - etransitivity; [exact H | apply R_cacheDecimals].
  - exact H.
Qed.

Lemma kept_getDescription : keeps R (getDescription host).
Proof.
  intro w. unfold getDescription.
  destruct (cachedDescription (self w)); try reflexivity.
  pose proof (keeps_executeWithRetry host R R_rotateAndWait
                (contractCall Description (description host)) 3
                (fun w0 =>
                   R_anyCall (url (runner (contract (self w0)))) Description w0)
                w) as H.
  destruct (executeWithRetry host _ 3 w) as [[v|e] w1]; cbn [snd] in *.
  - etransitivity; [exact H | apply R_cacheDescription].
  - exact H.
Qed.

End Getters.

(** *** Relations kept by every operation *)

Section Lifetime.

Variable host : Host.
Variable R : World -> World -> Prop.
Context {R_preorder : PreOrder R}.

Hypothesis R_console : forall l w, R w (emit (Console l) w).
Hypothesis R_rotateAndWait :
  forall e i retries w, R w (rotateAndWait host e i retries w).
Hypothesis R_call : forall u r w, isFetch r = false -> R w (noteCall u r w).
Hypothesis R_getDecimals : keeps R (getDecimals host).
Hypothesis R_getDescription : keeps R (getDescription host).

Lemma kept_console l : keeps R (console l).
Proof. apply keeps_run. intro w. apply R_console. Qed.

Lemma kept_contractCall {A} r (respond : nat -> option string -> Completion A) :
  isFetch r = false ->
  keeps R (executeWithRetry host (contractCall r respond) 3).
Proof.
  intro Hr. apply (keeps_executeWithRetry host R R_rotateAndWait).
  intro w. apply R_call, Hr.
Qed.

Lemma kept_providerCall {A} r (respond : nat -> option string -> Completion A) :
  isFetch r = false ->
  keeps R (executeWithRetry host (providerCall r respond) 3).
Proof.
  intro Hr. apply (keeps_executeWithRetry host R R_rotateAndWait).
  intro w. apply R_call, Hr.
Qed.

Lemma kept_getCurrentPrice : keeps R (getCurrentPrice host).
Proof.
  unfold getCurrentPrice. apply keeps_limit. framed keeps_tryCatch.
  - framed keeps_bind; [apply R_getDecimals|]. intro d.
    framed keeps_bind; [apply R_getDescription|]. intro descr.
    framed keeps_bind; [apply kept_contractCall; reflexivity|]. intro latest.
    framed keeps_bind; [framed keeps_currentTime|]. intro stamp.
    framed keeps_ret.
  - intro e. framed keeps_bind; [apply kept_console|]. intros _.
    framed keeps_throw.
Qed.

Lemma kept_roundField roundData field : keeps R (roundField roundData field).
Proof.
  destruct roundData; [framed keeps_throw | framed keeps_throw | framed keeps_ret].
Qed.

Lemma kept_getLatestRoundData : keeps R (getLatestRoundData host).
Proof.
  unfold getLatestRoundData. apply keeps_limit. framed keeps_tryCatch.
  - framed keeps_bind; [apply R_getDecimals|]. intro d.
    framed keeps_bind; [apply kept_contractCall; reflexivity|]. intro roundData.
    framed keeps_bind; [apply kept_roundField|]. intro r.
    framed keeps_bind; [framed keeps_complete|]. intro formatted.
    framed keeps_ret.
  - intro e. framed keeps_bind; [apply kept_console|]. intros _.
    framed keeps_throw.
Qed.

Lemma kept_setupEventListeners : keeps R setupEventListeners.
Proof. apply kept_console. Qed.

Lemma kept_processEvents events : keeps R (processEvents host events).
Proof.
  unfold processEvents.
  framed keeps_bind; [apply R_getDecimals|]. intro d.
  destruct events; [framed keeps_throw | framed keeps_throw | framed keeps_complete].
Qed.

Lemma kept_queryBatch batch : keeps R (queryBatch host batch).
Proof.
  unfold queryBatch. apply keeps_limit. framed keeps_tryCatch.
  - apply kept_contractCall. reflexivity.
  - intro e. framed keeps_bind; [apply kept_console|]. intros _.
    framed keeps_ret.
Qed.

Lemma kept_queryBatches batches : keeps R (queryBatches host batches).
Proof.
  induction batches as [|b bs IH]; cbn [queryBatches].
  - framed keeps_ret.
  - framed keeps_bind; [apply kept_queryBatch|]. intro r.
    framed keeps_bind; [exact IH|]. intro rs. framed keeps_ret.
Qed.

Lemma kept_queryHistoricalEvents blockRange batchSize w r :
  queryHistoricalEvents host blockRange batchSize w = Some r ->
  R w (snd r).
Proof.
  unfold queryHistoricalEvents.
  set (w0 := emit (Console (QueryingHistory blockRange)) w).
  assert (H0 : R w w0) by apply R_console.
  pose proof (kept_providerCall GetBlockNumber (getBlockNumber host) eq_refl w0)
    as H1.
  destruct (executeWithRetry host _ 3 w0) as [[currentBlock|e] w1];
    cbn [snd] in H1.
  2:{ intro E. inversion E; subst; clear E. cbn [snd].
      etransitivity; [exact H0|].
      etransitivity; [exact H1 | apply R_console]. }
  destruct (planQueries currentBlock blockRange batchSize)
    as [[fromBlock toBlock|batches]|]; [| |discriminate].
  - pose proof (kept_contractCall (QueryFilter fromBlock toBlock)
                  (fun k u => queryFilter host k u fromBlock toBlock)
                  eq_refl w1) as H2.
    unfold limit.
    destruct (executeWithRetry host _ 3 w1) as [[events|e] w2]; cbn [snd] in H2;
      intro E; inversion E; subst; clear E.
    + etransitivity; [exact H0|].
      etransitivity; [exact H1|].
      etransitivity; [exact H2 | apply kept_processEvents].
    + cbn [snd].
      etransitivity; [exact H0|].
      etransitivity; [exact H1|].
      etransitivity; [exact H2 | apply R_console].
  - set (w2 := emit (Console (QueryingBatches (List.length batches))) w1).
    assert (H2 : R w1 w2) by apply R_console.
    pose proof (kept_queryBatches batches w2) as H3.
    destruct (queryBatches host batches w2) as [[results|e] w3]; cbn [snd] in H3;
      intro E; inversion E; subst; clear E.
    + etransitivity; [exact H0|].
      etransitivity; [exact H1|].
      etransitivity; [exact H2|].
      etransitivity; [exact H3|].
      etransitivity; [apply R_console | apply kept_processEvents].
    + cbn [snd].
      etransitivity; [exact H0|].
      etransitivity; [exact H1|].
      etransitivity; [exact H2|].
      etransitivity; [exact H3 | apply R_console].
Qed.

Lemma kept_displayCurrentPrice : keeps R (displayCurrentPrice host).
Proof.
  unfold displayCurrentPrice.
  framed keeps_bind; [apply kept_getCurrentPrice|]. intro priceData.
  repeat (framed keeps_bind; [apply kept_console|]; intros _).
  apply kept_console.
Qed.

Lemma kept_monitorTick : keeps R (monitorTick host).
Proof.
  unfold monitorTick. framed keeps_tryCatch.
  - apply kept_displayCurrentPrice.
  - intro e. apply kept_console.
Qed.

Lemma kept_fire id : keeps R (fire host id).
Proof.
  intro w. unfold fire.
  destruct (existsb _ (timers w)); [apply kept_monitorTick | reflexivity].
Qed.

Hypothesis R_setInterval : forall intervalMs w, R w (setInterval intervalMs w).
Hypothesis R_stopMonitoring : forall w, R w (stopMonitoring host w).

Lemma kept_monitorPrice intervalMs : keeps R (monitorPrice host intervalMs).
Proof.
  unfold monitorPrice.
  framed keeps_bind; [apply kept_console|]. intros _.
  framed keeps_bind; [apply kept_displayCurrentPrice|]. intros _.
  apply keeps_run. intro w. apply R_setInterval.
Qed.

Lemma kept_perform op w w' : perform host op w = Some w' -> R w w'.
Proof.
  destruct op; cbn [perform]; intro E.
  - inversion E. apply R_getDecimals.
  - inversion E. apply R_getDescription.
  - inversion E. apply kept_getCurrentPrice.
  - inversion E. apply kept_getLatestRoundData.
  - inversion E. apply kept_setupEventListeners.
  - destruct (queryHistoricalEvents host blockRange batchSize w) as [r|] eqn:Hq;
      [|discriminate].
    inversion E. eapply kept_queryHistoricalEvents. exact Hq.
  - inversion E. apply kept_monitorPrice.
  - inversion E. apply kept_fire.
  - inversion E. apply R_stopMonitoring.
Qed.

Lemma kept_performAll ops :
  forall w w', performAll host ops w = Some w' -> R w w'.
Proof.
  induction ops as [|op ops IH]; intros w w' E; cbn [performAll] in E.
  - inversion E. reflexivity.
  - destruct (perform host op w) as [w1|] eqn:Hop; [|discriminate].
    etransitivity; [eapply kept_perform; exact Hop | apply IH, E].
Qed.

End Lifetime.

(** *** The static value cache *)

Lemma quiet_refl w : quiet w w.
Proof. repeat split. Qed.

Lemma quiet_trans w1 w2 w3 : quiet w1 w2 -> quiet w2 w3 -> quiet w1 w3.
Proof.
  intros (H1 & H2 & H3) (H4 & H5 & H6).
  split; [congruence | split; [congruence | intro k; rewrite H6; apply H3]].
Qed.

#[export] Instance quiet_preorder : PreOrder quiet.
Proof.
  split; [intro w; apply quiet_refl | intros w1 w2 w3; apply quiet_trans].
Qed.

Lemma quiet_settled k w w' : quiet w w' -> settled k w w'.
Proof.
  intros (H1 & H2 & H3) _. split; [destruct k; assumption | apply H3].
Qed.

Lemma settled_refl k w : settled k w w.
Proof. apply quiet_settled, quiet_refl. Qed.

Lemma populated_sameValue k w w' :
  sameValue k w w' -> populated k w' = populated k w.
Proof. destruct k; cbn; intros ->; reflexivity. Qed.

Lemma settled_trans k w1 w2 w3 :
  settled k w1 w2 -> settled k w2 w3 -> settled k w1 w3.
Proof.
  intros H12 H23 Hp. destruct (H12 Hp) as [Hv Hf].
  rewrite <- (populated_sameValue _ _ _ Hv) in Hp.
  destruct (H23 Hp) as [Hv' Hf']. split; [|congruence].
  destruct k; cbn in *; congruence.
Qed.

#[export] Instance settled_preorder k : PreOrder (settled k).
Proof.
  split; [intro w; apply settled_refl | intros w1 w2 w3; apply settled_trans].
Qed.

Lemma fetches_emit k e w :
  fetches k (emit e w) = (if fetchOf k e then S (fetches k w) else fetches k w).
Proof.
  unfold fetches, emit. cbn [trace].
  rewrite filter_app, length_app. cbn [filter].
  destruct (fetchOf k e); cbn [List.length]; lia.
Qed.

Lemma quiet_console l w : quiet w (emit (Console l) w).
Proof.
  repeat split. intro k. rewrite fetches_emit. destruct k; reflexivity.
Qed.

Lemma quiet_sleep ms w : quiet w (emit (Sleep ms) w).
Proof.
  repeat split. intro k. rewrite fetches_emit. destruct k; reflexivity.
Qed.

(** An update of the object that leaves both cache slots alone. *)
Lemma quiet_withSelf (f : Oracle -> Oracle) w :
  keepsSlots f -> quiet w (withSelf f w).
Proof.
  intro H. destruct (H (self w)) as (H1 & H2 & _). repeat split; assumption.
Qed.

Section Cache.

Variable host : Host.

Lemma quiet_rotateAndWait e i retries w :
  quiet w (rotateAndWait host e i retries w).
Proof.
  exact (kept_rotateAndWait host quiet quiet_console quiet_sleep quiet_withSelf
           e i retries w).
Qed.

Lemma quiet_removeAllListeners w : quiet w (removeAllListeners host w).
Proof. exact (kept_removeAllListeners host quiet quiet_withSelf w). Qed.

Lemma settled_rotateAndWait k e i retries w :
  settled k w (rotateAndWait host e i retries w).
Proof. apply quiet_settled, quiet_rotateAndWait. Qed.

Lemma settled_console k l w : settled k w (emit (Console l) w).
Proof. apply quiet_settled, quiet_console. Qed.

Lemma settled_noteCall k u r w :
  otherRequest k r -> settled k w (noteCall u r w).
Proof.
  intros Hr _. split.
  - destruct k; reflexivity.
  - change (noteCall u r w) with
      {| self := self (emit (Call u r) w); calls := S (calls w);
         timers := timers w; nextTimer := nextTimer w;
         trace := trace (emit (Call u r) w) |}.
    transitivity (fetches k (emit (Call u r) w)); [reflexivity|].
    rewrite fetches_emit, Hr. reflexivity.
Qed.

Lemma settled_call k u r w :
  isFetch r = false -> settled k w (noteCall u r w).
Proof.
  intro Hr. apply settled_noteCall. intro u'.
  destruct k, r; try reflexivity; discriminate.
Qed.

(** Fetching one key does not disturb the other; a populated key is not
    fetched at all. *)
Lemma settled_getDecimals k : keeps (settled k) (getDecimals host).
Proof.
  intro w. unfold getDecimals.
  destruct (cachedDecimals (self w)) eqn:Hc; try apply settled_refl.
  destruct k.
  - intro Hp. cbn in Hp. rewrite Hc in Hp. discriminate.
  - pose proof (keeps_executeWithRetry host (settled DescriptionKey)
                  (settled_rotateAndWait DescriptionKey)
                  (contractCall Decimals (decimals host)) 3
                  (fun w0 =>
                     settled_noteCall DescriptionKey
                       (url (runner (contract (self w0)))) Decimals w0
                       (fun _ => eq_refl))
                  w) as H.
    destruct (executeWithRetry host _ 3 w) as [[v|e] w1]; cbn [snd] in *.
    + eapply settled_trans; [exact H|]. intros _. split; reflexivity.
    + exact H.
Qed.

Lemma settled_getDescription k : keeps (settled k) (getDescription host).
Proof.
  intro w. unfold getDescription.
  destruct (cachedDescription (self w)) eqn:Hc; try apply settled_refl.
  destruct k.
  - pose proof (keeps_executeWithRetry host (settled DecimalsKey)
                  (settled_rotateAndWait DecimalsKey)
                  (contractCall Description (description host)) 3
                  (fun w0 =>
                     settled_noteCall DecimalsKey
                       (url (runner (contract (self w0)))) Description w0
                       (fun _ => eq_refl))
                  w) as H.
    destruct (executeWithRetry host _ 3 w) as [[v|e] w1]; cbn [snd] in *.
    + eapply settled_trans; [exact H|]. intros _. split; reflexivity.
    + exact H.
  - intro Hp. cbn in Hp. rewrite Hc in Hp. discriminate.
Qed.

Lemma quiet_stopMonitoring w : quiet w (stopMonitoring host w).
Proof.
  unfold stopMonitoring.
  eapply quiet_trans; [|apply quiet_withSelf; intro o; repeat split].
  eapply quiet_trans; [|apply quiet_removeAllListeners].
  destruct (monitorInterval (self w)).
  - eapply quiet_trans; [|apply quiet_console]. repeat split.
  - apply quiet_refl.
Qed.

(** Along any sequence of operations a populated key keeps its value and is
    not fetched again. *)
Lemma settled_performAll k ops w w' :
  performAll host ops w = Some w' -> settled k w w'.
Proof.
  apply (kept_performAll host (settled k)).
  - apply settled_console.
  - apply settled_rotateAndWait.
  - apply settled_call.
  - apply settled_getDecimals.
  - apply settled_getDescription.
  - intros intervalMs w0. apply quiet_settled. repeat split.
  - intro w0. apply quiet_settled, quiet_stopMonitoring.
Qed.

Lemma getDecimals_cached w :
  cachedDecimals (self w) <> Null ->
  getDecimals host w = (Return (cachedDecimals (self w)), w).
Proof.
  intro H. unfold getDecimals.
  destruct (cachedDecimals (self w)); [contradiction | reflexivity | reflexivity].
Qed.

Lemma getDescription_cached w :
  cachedDescription (self w) <> Null ->
  getDescription host w = (Return (cachedDescription (self w)), w).
Proof.
  intro H. unfold getDescription.
  destruct (cachedDescription (self w)); [contradiction | reflexivity | reflexivity].
Qed.

Lemma repeatedly_getDecimals_cached n w :
  cachedDecimals (self w) <> Null ->
  repeatedly (getDecimals host) n w
  = (repeat (Return (cachedDecimals (self w))) n, w).
Proof.
  intro H. induction n as [|n IH]; [reflexivity|].
  cbn [repeatedly repeat]. rewrite (getDecimals_cached w H), IH. reflexivity.
Qed.

Lemma repeatedly_getDescription_cached n w :
  cachedDescription (self w) <> Null ->
  repeatedly (getDescription host) n w
  = (repeat (Return (cachedDescription (self w))) n, w).
Proof.
  intro H. induction n as [|n IH]; [reflexivity|].
  cbn [repeatedly repeat]. rewrite (getDescription_cached w H), IH. reflexivity.
Qed.

End Cache.

(** *** The monitor's schedule *)

#[export] Instance sameSchedule_preorder : PreOrder sameSchedule.
Proof.
  split.
  - intro w. repeat split.
  - intros w1 w2 w3 (H1 & H2 & H3) (H4 & H5 & H6). repeat split; congruence.
Qed.

Lemma sameSchedule_emit e w : sameSchedule w (emit e w).
Proof. repeat split. Qed.

Lemma sameSchedule_noteCall u r w : sameSchedule w (noteCall u r w).
Proof. repeat split. Qed.

Lemma sameSchedule_withSelf (f : Oracle -> Oracle) w :
  keepsSlots f -> sameSchedule w (withSelf f w).
Proof. intro H. repeat split. apply H. Qed.

Section Monitor.

Variable host : Host.

Lemma sameSchedule_rotateAndWait e i retries w :
  sameSchedule w (rotateAndWait host e i retries w).
Proof.
  exact (kept_rotateAndWait host sameSchedule
           (fun l => sameSchedule_emit (Console l))
           (fun ms => sameSchedule_emit (Sleep ms))
           sameSchedule_withSelf e i retries w).
Qed.

Lemma sameSchedule_displayCurrentPrice :
  keeps sameSchedule (displayCurrentPrice host).
Proof.
  apply (kept_displayCurrentPrice host sameSchedule).
  - intros l w. apply sameSchedule_emit.
  - apply sameSchedule_rotateAndWait.
  - intros u r w _. apply sameSchedule_noteCall.
  - apply (kept_getDecimals host sameSchedule sameSchedule_rotateAndWait
             sameSchedule_noteCall).
    intros v w. repeat split.
  - apply (kept_getDescription host sameSchedule sameSchedule_rotateAndWait
             sameSchedule_noteCall).
    intros v w. repeat split.
Qed.

(** A scheduled poll never throws: its failure is caught and logged, and the
    timers are left as they were. *)
Lemma monitorTick_contained w :
  exists w', monitorTick host w = (Return tt, w') /\ sameSchedule w w'.
Proof.
  unfold monitorTick, tryCatch.
  pose proof (sameSchedule_displayCurrentPrice w) as H.
  destruct (displayCurrentPrice host w) as [[[]|e] w1]; cbn [snd] in H.
  - exists w1. split; [reflexivity | exact H].
  - eexists. split; [reflexivity|].
    etransitivity; [exact H | apply sameSchedule_emit].
Qed.

Lemma fire_contained id w :
  exists w', fire host id w = (Return tt, w') /\ sameSchedule w w'.
Proof.
  unfold fire. destruct (existsb _ (timers w)).
  - apply monitorTick_contained.
  - exists w. split; reflexivity.
Qed.

(** When the first poll of [monitorPrice] throws, so does [monitorPrice], and
    no timer is set. *)
Lemma monitorPrice_first_poll_throws intervalMs w e w1 :
  displayCurrentPrice host (emit (Console (MonitorStarting intervalMs)) w)
  = (Throw e, w1) ->
  monitorPrice host intervalMs w = (Throw e, w1) /\ sameSchedule w w1.
Proof.
  intro H. split.
  - unfold monitorPrice, bind, console, run. rewrite H. reflexivity.
  - pose proof (sameSchedule_displayCurrentPrice
                  (emit (Console (MonitorStarting intervalMs)) w)) as Hs.
    rewrite H in Hs. cbn [snd] in Hs.
    etransitivity; [apply sameSchedule_emit | exact Hs].
Qed.

End Monitor.

(** *** The index stays in the pool *)

#[export] Instance staysValid_preorder : PreOrder staysValid.
Proof.
  split.
  - intros w H. exact H.
  - intros w1 w2 w3 H12 H23 H. apply H23, H12, H.
Qed.

(** Where neither the pool nor the index changed. *)
Lemma staysValid_same w w' :
  rpcIndex (self w') = rpcIndex (self w) ->
  rpcEndpoints (self w') = rpcEndpoints (self w) ->
  staysValid w w'.
Proof.
  unfold staysValid, validIndex, poolSize. intros -> ->. exact (fun H => H).
Qed.

Section Pool.

Variable host : Host.

Lemma staysValid_rotateAndWait e i retries w :
  staysValid w (rotateAndWait host e i retries w).
Proof.
  intro H. unfold rotateAndWait.
  change (validIndex
            (rotateRPC host
               (emit (Console (RetryRotating (isRateLimit e) (S i) retries)) w))).
  apply rotateRPC_valid. exact H.
Qed.

Lemma staysValid_stopMonitoring w : staysValid w (stopMonitoring host w).
Proof.
  intro H. unfold stopMonitoring.
  match goal with
  | |- context [removeAllListeners host ?x] =>
      assert (H1 : validIndex x)
        by (destruct (monitorInterval (self w)); exact H);
      destruct (removeAllListeners_samePool host x) as (Hi & Hp & _)
  end.
  unfold validIndex, poolSize in *.
  cbn [withSelf self setActiveListeners rpcIndex rpcEndpoints].
  rewrite Hi, Hp. exact H1.
Qed.

(** Every operation leaves a valid index valid. *)
Lemma validIndex_performAll ops w w' :
  performAll host ops w = Some w' -> validIndex w -> validIndex w'.
Proof.
  apply (kept_performAll host staysValid).
  - intros l w0. apply staysValid_same; reflexivity.
  - apply staysValid_rotateAndWait.
  - intros u r w0 _. apply staysValid_same; reflexivity.
  - apply (kept_getDecimals host staysValid staysValid_rotateAndWait).
    + intros u r w0. apply staysValid_same; reflexivity.
    + intros v w0. apply staysValid_same; reflexivity.
  - apply (kept_getDescription host staysValid staysValid_rotateAndWait).
    + intros u r w0. apply staysValid_same; reflexivity.
    + intros v w0. apply staysValid_same; reflexivity.
  - intros intervalMs w0. apply staysValid_same; reflexivity.
  - apply staysValid_stopMonitoring.
Qed.

(** A new object starts at a valid index. *)
Lemma validIndex_construct key : validIndex (construct host key).
Proof. unfold validIndex, poolSize. cbn. lia. Qed.

End Pool.

(** *** The windows of a historical query *)

Lemma batchLoop_inside fuel i currentBlock batchSize :
  i <= currentBlock ->
  batchLoop (S fuel) i currentBlock batchSize
  = match batchLoop fuel (i + batchSize) currentBlock batchSize with
    | Some rest =>
        Some ({| from := i; to := Z.min (i + batchSize - 1) currentBlock |}
                :: rest)
    | None => None
    end.
Proof.
  intro H. cbn [batchLoop].
  destruct (Z.leb_spec i currentBlock); [reflexivity | lia].
Qed.

Lemma batchLoop_beyond fuel i currentBlock batchSize :
  currentBlock < i ->
  batchLoop (S fuel) i currentBlock batchSize = Some [].
Proof.
  intro H. cbn [batchLoop].
  destruct (Z.leb_spec i currentBlock); [lia | reflexivity].
Qed.

(** With a positive batch size the loop ends within the rounds it is given. *)
Lemma batchLoop_terminates batchSize currentBlock :
  0 < batchSize ->
  forall fuel i,
    (Z.to_nat (currentBlock - i + 1) < fuel)%nat ->
    exists batches, batchLoop fuel i currentBlock batchSize = Some batches.
Proof.
  intros Hb fuel. induction fuel as [|fuel IH]; intros i Hf; [lia|].
  destruct (Z.le_gt_cases i currentBlock) as [Hi|Hi].
  - rewrite batchLoop_inside by exact Hi.
    destruct (IH (i + batchSize)) as [rest Hrest]; [lia|].
    rewrite Hrest. eauto.
  - rewrite batchLoop_beyond by lia. eauto.
Qed.

Lemma makeBatches_terminates fromBlock currentBlock batchSize :
  0 < batchSize ->
  exists batches, makeBatches fromBlock currentBlock batchSize = Some batches.
Proof.
  intro Hb. unfold makeBatches. apply batchLoop_terminates; [exact Hb | lia].
Qed.

(** With a batch size that is not positive the loop over a non-empty range
    has no end, whatever the number of rounds. *)
Lemma makeBatches_diverges batchSize currentBlock :
  batchSize <= 0 ->
  forall fuel i,
    i <= currentBlock -> batchLoop fuel i currentBlock batchSize = None.
Proof.
  intros Hb fuel. induction fuel as [|fuel IH]; intros i Hi; [reflexivity|].
  rewrite batchLoop_inside by exact Hi. rewrite IH by lia. reflexivity.
Qed.

(** More rounds do not change the windows found. *)
Lemma batchLoop_more_fuel batchSize currentBlock :
  forall fuel i batches,
    batchLoop fuel i currentBlock batchSize = Some batches ->
    forall fuel', (fuel <= fuel')%nat ->
                  batchLoop fuel' i currentBlock batchSize = Some batches.
Proof.
  intro fuel. induction fuel as [|fuel IH]; intros i batches H fuel' Hle;
    [discriminate|].
  destruct fuel' as [|fuel']; [lia|].
  destruct (Z.le_gt_cases i currentBlock) as [Hi|Hi].
  - rewrite batchLoop_inside in * by exact Hi.
    destruct (batchLoop fuel (i + batchSize) currentBlock batchSize)
      as [rest|] eqn:Hrest; [|discriminate].
    rewrite (IH _ _ Hrest fuel') by lia. exact H.
  - rewrite batchLoop_beyond in * by lia. exact H.
Qed.

(** For any positive batch size the windows are consecutive, do not overlap,
    cover the whole range and end at the head. *)
Lemma batchLoop_partition batchSize currentBlock :
  0 < batchSize ->
  forall fuel i batches,
    batchLoop fuel i currentBlock batchSize = Some batches ->
    i <= currentBlock ->
    Partition batchSize currentBlock i batches.
Proof.
  intros Hb fuel. induction fuel as [|fuel IH]; intros i batches H Hi;
    [discriminate|].
  rewrite batchLoop_inside in H by exact Hi.
  destruct (batchLoop fuel (i + batchSize) currentBlock batchSize)
    as [rest|] eqn:Hrest; [|discriminate].
  inversion H; subst batches; clear H.
  destruct (Z.le_gt_cases (i + batchSize) currentBlock) as [Hin|Hout].
  - rewrite Z.min_l by lia.
    apply PartitionNext; [lia|]. apply IH; assumption.
  - rewrite Z.min_r by lia.
    destruct fuel as [|fuel']; [discriminate|].
    rewrite batchLoop_beyond in Hrest by lia.
    inversion Hrest; subst rest.
    apply PartitionLast; lia.
Qed.

Lemma makeBatches_partition fromBlock currentBlock batchSize :
  0 < batchSize ->
  fromBlock <= currentBlock ->
  exists batches,
    makeBatches fromBlock currentBlock batchSize = Some batches /\
    Partition batchSize currentBlock fromBlock batches.
Proof.
  intros Hb Hi.
  destruct (makeBatches_terminates fromBlock currentBlock batchSize Hb)
    as [batches H].
  exists batches. split; [exact H|].
  exact (batchLoop_partition _ _ Hb _ _ _ H Hi).
Qed.

(** The windows once the head is known, for a range of 120 blocks in batches
    of 50. *)
Lemma makeBatches_120_50 head :
  makeBatches (head - 120) head 50
  = Some [ {| from := head - 120; to := head - 71 |};
           {| from := head - 70; to := head - 21 |};
           {| from := head - 20; to := head |} ].
Proof.
  unfold makeBatches.
  replace (head - (head - 120) + 1) with 121 by lia.
  change (Z.to_nat 121) with 121%nat.
  rewrite batchLoop_inside by lia.
  rewrite batchLoop_inside by lia.
  rewrite batchLoop_inside by lia.
  rewrite batchLoop_beyond by lia.
  replace (Z.min (head - 120 + 50 - 1) head) with (head - 71) by lia.
  replace (Z.min (head - 120 + 50 + 50 - 1) head) with (head - 21) by lia.
  replace (Z.min (head - 120 + 50 + 50 + 50 - 1) head) with head by lia.
  replace (head - 120 + 50 + 50) with (head - 20) by lia.
  replace (head - 120 + 50) with (head - 70) by lia.
  reflexivity.
Qed.

Lemma planQueries_120_50 head :
  planQueries (Val head) 120 50
  = Some (Batches [ {| from := head - 120; to := head - 71 |};
                    {| from := head - 70; to := head - 21 |};
                    {| from := head - 20; to := head |} ]).
Proof.
  unfold planQueries, subtractRange.
  change (120 <=? 50) with false. cbv iota.
  rewrite makeBatches_120_50. reflexivity.
Qed.

Lemma planQueries_single head blockRange batchSize :
  blockRange <= batchSize ->
  planQueries (Val head) blockRange batchSize
  = Some (SingleWindow (Some (head - blockRange)) (Val head)).
Proof.
  intro H. unfold planQueries, subtractRange.
  destruct (Z.leb_spec blockRange batchSize); [reflexivity | lia].
Qed.

(** *** What a trace shows *)

(** *** Retry exhaustion *)

(** C1, as the code behaves: with three attempts against endpoints that all
    answer with a rate-limit error, [executeWithRetry] invokes the operation
    three times, yet it rotates after every failure, the third one included
    (three rotations, ending on the fourth endpoint), waits 1000, 2000 and
    4000 ms, and resolves with [undefined]: the error is not propagated. *)
Theorem executeWithRetry_rate_limited_three_times :
  let host := failing rateLimited in
  let start := fresh host in
  let outcome :=
    executeWithRetry host (contractCall LatestAnswer (latestAnswer host)) 3 start in
  fst outcome = Return Undefined /\
  requestsOf (since start (snd outcome))
  = [LatestAnswer; LatestAnswer; LatestAnswer] /\
  rotationsOf (since start (snd outcome)) = 3%nat /\
  waitsOf (since start (snd outcome)) = [1000; 2000; 4000] /\
  rpcIndex (self (snd outcome)) = 3.
Proof. vm_compute. repeat split; reflexivity. Qed.

(** *** Rotation *)

(** C8: on a non-empty pool with a valid index, [rotateRPC] moves the index
    to the next position modulo the pool size, the new index is again a valid
    position (to which the provider and the contract are now bound), as many
    rotations as the pool has endpoints bring the index back to where it
    started, and whatever operations run on the object, the index is a valid
    position afterwards. *)
Theorem rotation_is_cyclic (host : Host) (w : World) :
  validIndex w ->
  rpcIndex (self (rotateRPC host w)) = (rpcIndex (self w) + 1) mod poolSize w /\
  validIndex (rotateRPC host w) /\
  url (provider (self (rotateRPC host w)))
  = index (rpcEndpoints (self w)) ((rpcIndex (self w) + 1) mod poolSize w) /\
  rpcIndex (self (rotations host (List.length (rpcEndpoints (self w))) w))
  = rpcIndex (self w) /\
  forall ops w', performAll host ops w = Some w' -> validIndex w'.
Proof.
  intro Hv. pose proof Hv as Hv'. unfold validIndex in Hv'.
  assert (Hrem : Z.rem (rpcIndex (self w) + 1) (poolSize w)
                 = (rpcIndex (self w) + 1) mod poolSize w)
    by (apply Z.rem_mod_nonneg; lia).
  split; [|split; [|split; [|split]]].
  - rewrite rotateRPC_rpcIndex. exact Hrem.
  - apply rotateRPC_valid, Hv.
  - destruct (rotateRPC_bound host w) as [Hu _].
    rewrite Hu, rotateRPC_rpcEndpoints, rotateRPC_rpcIndex, Hrem. reflexivity.
  - rewrite rotations_rpcIndex by exact Hv.
    fold (poolSize w).
    replace (rpcIndex (self w) + poolSize w)
      with (rpcIndex (self w) + 1 * poolSize w) by lia.
    rewrite Z_mod_plus_full. apply Z.mod_small. exact Hv'.
  - intros ops w' Hops. exact (validIndex_performAll host ops w w' Hops Hv).
Qed.

Lemma rotation_is_cyclic_witness :
  let host := steady 689 in
  validIndex (fresh host) /\
  rpcIndex (self (rotateRPC host (fresh host))) = 1 /\
  url (provider (self (rotateRPC host (fresh host))))
  = Some "https://base.llamarpc.com" /\
  rpcIndex (self (rotations host 4 (fresh host))) = 0.
Proof.
  cbv zeta.
  assert (Hv : validIndex (fresh (steady 689))) by (vm_compute; split; congruence).
  destruct (rotation_is_cyclic (steady 689) (fresh (steady 689)) Hv)
    as (H1 & _ & H3 & H4 & _).
  split; [exact Hv|]. split; [|split].
  - exact H1.
  - exact H3.
  - exact H4.
Defined.

(** *** Push subscriptions *)

(** C2 fails on the code: after [setupEventListeners()] on a new object the
    registry has no [AnswerUpdated] entry and no handler is installed. *)
Lemma setupEventListeners_subscribes_nothing :
  ~ subscribed (snd (setupEventListeners (fresh (steady 689)))).
Proof. intros (handler & Hget & _). vm_compute in Hget. discriminate. Qed.

(** C2, amended: [setupEventListeners()] returns normally and changes neither
    the subscription registry nor the handlers installed on the transport
    handle (nor anything else of the object or its timers); all it does is
    report on the console that event listeners are disabled. *)
Theorem setupEventListeners_only_reports (w : World) :
  exists w',
    setupEventListeners w = (Return tt, w') /\
    self w' = self w /\
    calls w' = calls w /\
    timers w' = timers w /\
    trace w' = (trace w ++ [Console ListenersDisabled])%list /\
    (subscribed w' <-> subscribed w).
Proof.
  eexists. split; [reflexivity|]. cbn. repeat split; auto.
Qed.

(** *** Historical windows *)

(** The three windows are what the method runs once the head is known. *)
Lemma queryHistoricalEvents_three_batches (host : Host) (w w1 : World) head :
  executeWithRetry host (providerCall GetBlockNumber (getBlockNumber host)) 3
    (emit (Console (QueryingHistory 120)) w)
  = (Return (Val head), w1) ->
  queryHistoricalEvents host 120 50 w
  = match
      queryBatches host
        [ {| from := head - 120; to := head - 71 |};
          {| from := head - 70; to := head - 21 |};
          {| from := head - 20; to := head |} ]
        (emit (Console (QueryingBatches 3)) w1)
    with
    | (Return batchResults, w3) =>
        Some (processEvents host (Val (flat batchResults))
                (emit (Console (FoundEvents (List.length (flat batchResults)))) w3))
    | (Throw error, w3) => Some (Return [], emit (Console (HistoryError error)) w3)
    end.
Proof.
  intro Hhead. unfold queryHistoricalEvents.
  rewrite Hhead, planQueries_120_50. reflexivity.
Qed.

(** On a healthy feed with head 1000 the provider sees exactly those three
    log queries. *)
Example queryHistoricalEvents_requests :
  option_map (fun r => requestsOf (since (fresh (steady 689)) (snd r)))
    (queryHistoricalEvents (steady 689) 120 50 (fresh (steady 689)))
  = Some [ GetBlockNumber;
           QueryFilter (Some 880) (Val 929);
           QueryFilter (Some 930) (Val 979);
           QueryFilter (Some 980) (Val 1000);
           Decimals ].
Proof. vm_compute. reflexivity. Qed.

(** *** The quote *)

Lemma zeroReadsInfinity_uint8 :
  forallb zeroReadsInfinity (map N.of_nat (seq 0 256)) = true.
Proof. vm_compute. reflexivity. Qed.

(** For every exponent an unsigned 8-bit [decimals()] can return, a raw
    reading of zero gives the inverse rate 0 and the direct rate Infinity. *)
Lemma zero_reading_rates (n : N) :
  (n < 256)%N ->
  inverseRate (Val 0) (Val n) = posZero /\
  directRate (inverseRate (Val 0) (Val n)) = Infinity.
Proof.
  intro Hn.
  pose proof zeroReadsInfinity_uint8 as H.
  rewrite forallb_forall in H.
  assert (Hin : In n (map N.of_nat (seq 0 256))).
  { rewrite <- (N2Nat.id n). apply in_map, in_seq. lia. }
  specialize (H n Hin). unfold zeroReadsInfinity in H.
  destruct (inverseRate (Val 0) (Val n)) as [[|]| | |]; try discriminate.
  destruct (directRate (S754_zero false)) as [|[|]| |]; try discriminate.
  split; reflexivity.
Qed.

Lemma getCurrentPrice_returns (host : Host) (w w1 w2 w3 : World) d descr latest :
  getDecimals host w = (Return d, w1) ->
  getDescription host w1 = (Return descr, w2) ->
  executeWithRetry host (contractCall LatestAnswer (latestAnswer host)) 3 w2
  = (Return latest, w3) ->
  getCurrentPrice host w
  = (Return {| ngnToUsd := inverseRate latest d;
               usdToNgn := directRate (inverseRate latest d);
               p_decimals := d;
               p_description := descr;
               formattedPrice := formatDirect (directRate (inverseRate latest d));
               reversePrice := formatInverse (inverseRate latest d);
               timestamp := now host (calls w3) |},
     w3).
Proof.
  intros H1 H2 H3.
  unfold getCurrentPrice, limit, tryCatch, bind.
  rewrite H1, H2, H3. reflexivity.
Qed.

Lemma getLatestRoundData_returns (host : Host) (w w1 w2 : World) d r iso :
  getDecimals host w = (Return d, w1) ->
  executeWithRetry host (contractCall LatestRoundData (latestRoundData host)) 3 w1
  = (Return (Val r), w2) ->
  toISOString (mul (ofZ (rd_updatedAt r)) (ofZ 1000)) = Return iso ->
  getLatestRoundData host w
  = (Return {| r_roundId := stringOfZ (rd_roundId r);
               r_answer := ofZ (rd_answer r);
               r_ngnToUsd := inverseRate (Val (rd_answer r)) d;
               r_usdToNgn := directRate (inverseRate (Val (rd_answer r)) d);
               r_formattedPrice :=
                 formatDirect (directRate (inverseRate (Val (rd_answer r)) d));
               r_reversePrice := formatInverse (inverseRate (Val (rd_answer r)) d);
               r_startedAt := ofZ (rd_startedAt r);
               r_updatedAt := ofZ (rd_updatedAt r);
               r_answeredInRound := stringOfZ (rd_answeredInRound r);
               r_updatedAtFormatted := iso |},
     w2).
Proof.
  intros H1 H2 H3.
  unfold getLatestRoundData, limit, tryCatch, bind.
  rewrite H1, H2. cbn [roundField ret]. unfold complete. rewrite H3.
  reflexivity.
Qed.




(** C5 fails on the code: with decimals 6 and a raw answer of 689 the
    formatted direct rate is "1 USD = 1451.38 NGN", not "1 USD = 1450.65
    NGN". *)
Lemma quote_for_689_is_not_1450_65 :
  exists p w',
    getCurrentPrice (steady 689) (fresh (steady 689)) = (Return p, w') /\
    formattedPrice p = "1 USD = 1451.38 NGN" /\
    formattedPrice p <> "1 USD = 1450.65 NGN".
Proof.
  eexists. eexists. split; [vm_compute; reflexivity|].
  split; [reflexivity | discriminate].
Qed.

(** C5, amended: with decimals 6 and a raw answer of 689, [getCurrentPrice]
    returns [ngnToUsd] = the binary64 number nearest to 0.000689, [usdToNgn]
    = its reciprocal, which lies between 1451.37 and 1451.38, and the strings
    "1 USD = 1451.38 NGN" and "1 NGN = 0.000689 USD". *)
Theorem quote_for_689_at_6_decimals :
  let inverse := inverseRate (Val 689) (Val 6%N) in
  let direct := directRate inverse in
  inverse = S754_finite false 6354903333392941 (-63) /\
  2 * Z.abs (6354903333392941 * 10 ^ 6 - 689 * 2 ^ 63) <= 10 ^ 6 /\
  direct = S754_finite false 6383231511036284 (-42) /\
  145137 * 2 ^ 42 < 6383231511036284 * 100 < 145138 * 2 ^ 42 /\
  formatDirect direct = "1 USD = 1451.38 NGN" /\
  formatInverse inverse = "1 NGN = 0.000689 USD" /\
  exists p w',
    getCurrentPrice (steady 689) (fresh (steady 689)) = (Return p, w') /\
    ngnToUsd p = inverse /\
    usdToNgn p = direct /\
    p_decimals p = Val 6%N /\
    formattedPrice p = "1 USD = 1451.38 NGN" /\
    reversePrice p = "1 NGN = 0.000689 USD".
Proof.
  cbv zeta.
  split; [vm_compute; reflexivity|].
  split; [vm_compute; discriminate|].
  split; [vm_compute; reflexivity|].
  split; [split; vm_compute; reflexivity|].
  split; [vm_compute; reflexivity|].
  split; [vm_compute; reflexivity|].
  eexists. eexists. split; [vm_compute; reflexivity|].
  repeat split.
Qed.

(** *** A failing window *)

(** When the retry of a window throws, the window counts as empty and the
    failure is reported on the console. *)
Lemma queryBatch_failure_is_empty (host : Host) (batch : Batch) (w w1 : World) e :
  executeWithRetry host
    (contractCall (QueryFilter (Some (from batch)) (Val (to batch)))
       (fun k u => queryFilter host k u (Some (from batch)) (Val (to batch))))
    3 w
  = (Throw e, w1) ->
  queryBatch host batch w
  = (Return (Val []),
     emit (Console (BatchError (from batch) (to batch) (message e))) w1).
Proof.
  intro H. unfold queryBatch, limit, tryCatch. rewrite H. reflexivity.
Qed.

(** C6, as the code behaves: a batched query over 120 blocks with head 1000
    whose second window is rate-limited on every attempt.  The retry of that
    window resolves with [undefined] instead of throwing, so nothing is
    caught; [undefined] survives [flat()], and the whole call is rejected with
    a TypeError from [processEvents].  (With an error that is not transient
    the same window is dropped and the records of the other two are returned
    in order.) *)
Theorem rate_limited_window_rejects_the_query :
  let host := badWindow 930 rateLimited in
  let other := badWindow 930 networkDown in
  option_map fst (queryHistoricalEvents host 120 50 (fresh host))
  = Some (Throw (TypeError "Cannot read properties of undefined (reading 'args')"))
  /\
  exists first third,
    option_map fst (queryHistoricalEvents other 120 50 (fresh other))
    = Some (Return [first; third]) /\
    h_blockNumber first = 880 /\
    h_blockNumber third = 980.
Proof.
  cbv zeta. split; [vm_compute; reflexivity|].
  eexists. eexists. split; [vm_compute; reflexivity|].
  split; reflexivity.
Qed.

(** *** The first poll of the monitor *)

(** C9, as the code behaves: when the endpoint cannot be reached, the first
    poll of [monitorPrice(60000)] throws and [monitorPrice] throws with it,
    before any timer is set: the error reaches the caller and no later poll
    is scheduled.  (Polls fired by the timer are contained, see
    [monitorTick_contained].) *)
Theorem monitorPrice_first_poll_is_unguarded :
  let host := failing networkDown in
  let outcome := monitorPrice host 60000 (fresh host) in
  fst outcome = Throw networkDown /\
  timers (snd outcome) = [] /\
  monitorInterval (self (snd outcome)) = None.
Proof. cbv zeta. repeat split; vm_compute; reflexivity. Qed.

End Properties.

(** ** Further properties of the client *)

Module Further.
Import Js NGNUSDOracle Scenario Notions Properties.

(** *** How the retry executor ends *)

Section RetryOutcome.

Variable host : Host.

Lemma retryLoop_throws {A} (fn : M A) retries :
  forall remaining i w e w',
    retryLoop host fn retries remaining i w = (Throw e, w') ->
    isTransient e = false /\ exists w0, fn w0 = (Throw e, w').
Proof.
  intro remaining. induction remaining as [|remaining IH]; intros i w e w' H;
    cbn [retryLoop] in H; [discriminate|].
  destruct (fn w) as [[a|e0] w1] eqn:Hfn; [discriminate|].
  destruct (isRateLimit e0 || isFilterError e0) eqn:Ht.
  - exact (IH _ _ _ _ H).
  - destruct (Nat.eqb (S i) retries).
    + inversion H; subst. split; [exact Ht | eauto].
    + exact (IH _ _ _ _ H).
Qed.

(** [n] calls in a row through a handle bound to [u]. *)
Lemma iter_noteCall u r n w :
  self (Nat.iter n (noteCall u r) w) = self w /\
  calls (Nat.iter n (noteCall u r) w) = (calls w + n)%nat /\
  timers (Nat.iter n (noteCall u r) w) = timers w /\
  trace (Nat.iter n (noteCall u r) w) = (trace w ++ repeat (Call u r) n)%list.
Proof.
  induction n as [|n (Hs & Hc & Ht & Htr)].
  - cbn [Nat.iter repeat nat_rect]. rewrite app_nil_r, Nat.add_0_r. repeat split.
  - rewrite !Nat.iter_succ. cbn [noteCall self calls timers trace].
    rewrite Hs, Hc, Ht, Htr.
    repeat split; [lia|].
    rewrite <- app_assoc. f_equal.
    cbn [repeat]. symmetry. apply repeat_cons.
Qed.

Lemma retryLoop_fatal_calls {A} r
  (respond : nat -> option string -> Completion A) retries :
  (forall k u, exists e, respond k u = Throw e /\ isTransient e = false) ->
  forall remaining i w,
    (i + S remaining = retries)%nat ->
    exists e,
      respond (calls w + remaining)%nat (url (runner (contract (self w))))
      = Throw e /\
      retryLoop host (contractCall r respond) retries (S remaining) i w
      = (Throw e,
         Nat.iter (S remaining)
           (noteCall (url (runner (contract (self w)))) r) w).
Proof.
  intros Hfatal remaining.
  induction remaining as [|remaining IH]; intros i w Hi.
  - destruct (Hfatal (calls w) (url (runner (contract (self w)))))
      as (e & He & Ht).
    exists e. rewrite Nat.add_0_r. split; [exact He|].
    cbn [retryLoop]. unfold contractCall at 1.
    rewrite He. unfold isTransient in Ht. rewrite Ht.
    replace (Nat.eqb (S i) retries) with true
      by (symmetry; apply Nat.eqb_eq; lia).
    reflexivity.
  - destruct (Hfatal (calls w) (url (runner (contract (self w)))))
      as (e0 & He0 & Ht0).
    destruct (IH (S i) (noteCall (url (runner (contract (self w)))) r w))
      as (e & He & Hrun); [lia|].
    exists e. split.
    + rewrite <- He. cbn [noteCall self calls contract]. f_equal. lia.
    + remember (S remaining) as n eqn:Hn.
      cbn [retryLoop]. unfold contractCall at 1.
      rewrite He0. unfold isTransient in Ht0. rewrite Ht0.
      replace (Nat.eqb (S i) retries) with false
        by (symmetry; apply Nat.eqb_neq; lia).
      rewrite Hrun. cbn [noteCall self contract].
      rewrite (Nat.iter_succ_r n). reflexivity.
Qed.

End RetryOutcome.

(** X1: whatever the operation and the number of attempts, an error thrown by
    [executeWithRetry] is never a rate-limit or filter error: it is an error
    the operation itself threw, classified as neither. *)
Theorem executeWithRetry_throws_only_fatal
  (host : Host) {A} (fn : M A) (retries : nat) (w w' : World) (e : Error) :
  executeWithRetry host fn retries w = (Throw e, w') ->
  isRateLimit e = false /\
  isFilterError e = false /\
  exists w0, fn w0 = (Throw e, w').
Proof.
  intro H. destruct (retryLoop_throws host fn retries _ _ _ _ _ H) as [Ht Hfn].
  unfold isTransient in Ht. apply orb_false_iff in Ht. tauto.
Qed.

Lemma executeWithRetry_throws_only_fatal_witness :
  let host := failing networkDown in
  isRateLimit networkDown = false /\
  isFilterError networkDown = false /\
  exists w0,
    contractCall LatestAnswer (latestAnswer host) w0
    = (Throw networkDown,
       snd (executeWithRetry host (contractCall LatestAnswer (latestAnswer host))
              3 (fresh host))).
Proof.
  cbv zeta.
  apply (executeWithRetry_throws_only_fatal (failing networkDown)
           (contractCall LatestAnswer (latestAnswer (failing networkDown)))
           3 (fresh (failing networkDown))).
  vm_compute. reflexivity.
Defined.

(** X2: when every answer of the provider is an error that is neither a rate
    limit nor a filter error, [executeWithRetry] makes exactly [retries]
    calls on the same endpoint, one after the other, without rotating,
    waiting or logging, and throws the error of the last call. *)
Theorem executeWithRetry_fatal_errors
  (host : Host) {A} (r : Request)
  (respond : nat -> option string -> Completion A) (retries : nat) (w : World) :
  (1 <= retries)%nat ->
  (forall k u, exists e, respond k u = Throw e /\ isTransient e = false) ->
  let u := url (runner (contract (self w))) in
  exists e w',
    executeWithRetry host (contractCall r respond) retries w = (Throw e, w') /\
    respond (calls w + retries - 1)%nat u = Throw e /\
    self w' = self w /\
    calls w' = (calls w + retries)%nat /\
    timers w' = timers w /\
    trace w' = (trace w ++ repeat (Call u r) retries)%list.
Proof.
  intros Hr Hfatal u.
  destruct retries as [|n]; [lia|].
  destruct (retryLoop_fatal_calls host r respond (S n) Hfatal n 0 w eq_refl)
    as (e & He & Hrun).
  destruct (iter_noteCall u r (S n) w) as (Hs & Hc & Ht & Htr).
  exists e. eexists. split; [exact Hrun|]. split.
  - rewrite <- He. f_equal. lia.
  - repeat split; assumption.
Qed.

Lemma executeWithRetry_fatal_errors_witness :
  let host := failing networkDown in
  let u := Some "https://mainnet.base.org" in
  exists e w',
    executeWithRetry host (contractCall LatestAnswer (latestAnswer host)) 3
      (fresh host)
    = (Throw e, w') /\
    Throw (A := Z) networkDown = Throw e /\
    self w' = self (fresh host) /\
    calls w' = 3%nat /\
    timers w' = [] /\
    trace w'
    = (trace (fresh host)
         ++ [Call u LatestAnswer; Call u LatestAnswer; Call u LatestAnswer])%list.
Proof.
  cbv zeta.
  apply (executeWithRetry_fatal_errors (failing networkDown) LatestAnswer
           (latestAnswer (failing networkDown)) 3 (fresh (failing networkDown))).
  - lia.
  - intros k u. exists networkDown. split; reflexivity.
Defined.

(** *** A retry on the next endpoint *)

#[export] Instance chatter_preorder : PreOrder chatter.
Proof.
  split.
  - intro w. repeat split. exists []. cbn. rewrite app_nil_r. reflexivity.
  - intros w1 w2 w3 (H1 & H2 & H3 & l1 & H4) (H5 & H6 & H7 & l2 & H8).
    repeat split; try congruence.
    exists (l1 ++ l2)%list. rewrite H8, H4, map_app, app_assoc. reflexivity.
Qed.

Lemma chatter_console l w : chatter w (emit (Console l) w).
Proof. repeat split. exists [l]. reflexivity. Qed.

Lemma chatter_withSelf f w : chatter w (withSelf f w).
Proof. repeat split. exists []. cbn. rewrite app_nil_r. reflexivity. Qed.

Lemma chatter_rotateRPC (host : Host) w : chatter w (rotateRPC host w).
Proof.
  exact (kept_rotateRPC host chatter chatter_console
           (fun f w0 _ => chatter_withSelf f w0) w).
Qed.

Lemma since_app w w' l :
  trace w' = (trace w ++ l)%list -> since w w' = l.
Proof.
  intro H. unfold since. rewrite H.
  rewrite skipn_app, skipn_all, Nat.sub_diag. reflexivity.
Qed.

Lemma requestsOf_app l1 l2 :
  requestsOf (l1 ++ l2) = (requestsOf l1 ++ requestsOf l2)%list.
Proof. apply flat_map_app. Qed.

Lemma waitsOf_app l1 l2 : waitsOf (l1 ++ l2) = (waitsOf l1 ++ waitsOf l2)%list.
Proof. apply flat_map_app. Qed.

Lemma requestsOf_console lines : requestsOf (map Console lines) = [].
Proof. induction lines as [|l lines IH]; [reflexivity | exact IH]. Qed.

Lemma waitsOf_console lines : waitsOf (map Console lines) = [].
Proof. induction lines as [|l lines IH]; [reflexivity | exact IH]. Qed.

Lemma rotateRPC_next (host : Host) w :
  validIndex w ->
  rpcIndex (self (rotateRPC host w)) = (rpcIndex (self w) + 1) mod poolSize w /\
  url (runner (contract (self (rotateRPC host w))))
  = index (rpcEndpoints (self w)) ((rpcIndex (self w) + 1) mod poolSize w).
Proof.
  intro Hv. destruct (rotateRPC_bound host w) as [Hu Hr].
  rewrite Hr, Hu, rotateRPC_rpcEndpoints, rotateRPC_rpcIndex.
  unfold validIndex in Hv. rewrite Z.rem_mod_nonneg by lia.
  split; reflexivity.
Qed.

(** X3: a call that meets a rate-limit or filter error and is answered on
    the second attempt returns that answer; in between the client has moved
    to the next endpoint of the pool and waited 1000 ms, and the second call
    is made on that endpoint. *)
Theorem executeWithRetry_recovers_on_next_endpoint
  (host : Host) {A} (r : Request)
  (respond : nat -> option string -> Completion A)
  (n : nat) (w : World) (e : Error) (a : A) :
  validIndex w ->
  let u0 := url (runner (contract (self w))) in
  let next := (rpcIndex (self w) + 1) mod poolSize w in
  let u1 := index (rpcEndpoints (self w)) next in
  respond (calls w) u0 = Throw e ->
  isTransient e = true ->
  respond (S (calls w)) u1 = Return a ->
  exists w',
    executeWithRetry host (contractCall r respond) (S (S n)) w
    = (Return (Val a), w') /\
    rpcIndex (self w') = next /\
    url (runner (contract (self w'))) = u1 /\
    calls w' = (calls w + 2)%nat /\
    requestsOf (since w w') = [r; r] /\
    waitsOf (since w w') = [1000].
Proof.
  intros Hv u0 next u1 H0 Ht H1.
  set (w1 := noteCall u0 r w).
  set (w2 := emit (Console (RetryRotating (isRateLimit e) 1 (S (S n)))) w1).
  set (w3 := rotateRPC host w2).
  set (w4 := emit (Sleep (backoffDelay 0)) w3).
  assert (Hv2 : validIndex w2) by exact Hv.
  destruct (rotateRPC_next host w2 Hv2) as [Hidx Hurl].
  destruct (chatter_rotateRPC host w2) as (Hc & _ & _ & lines & Htr).
  fold w3 in Hidx, Hurl, Hc, Htr.
  exists (noteCall u1 r w4). split; [|split; [|split; [|split; [|split]]]].
  - unfold executeWithRetry.
    rewrite (retryLoop_transient host (contractCall r respond) _ _ _ w e w1);
      [|unfold contractCall; fold u0; rewrite H0; reflexivity | exact Ht].
    apply retryLoop_return.
    unfold contractCall, rotateAndWait. fold w2 w3 w4.
    change (url (runner (contract (self w4))))
      with (url (runner (contract (self w3)))).
    rewrite Hurl. change (calls w4) with (calls w3). rewrite Hc.
    change (calls w2) with (S (calls w)).
    change (index (rpcEndpoints (self w2))
              ((rpcIndex (self w2) + 1) mod poolSize w2)) with u1.
    rewrite H1. reflexivity.
  - exact Hidx.
  - exact Hurl.
  - cbn [noteCall calls]. change (calls w4) with (calls w3). rewrite Hc.
    change (calls w2) with (S (calls w)). lia.
  - rewrite (since_app w (noteCall u1 r w4)
               ([Call u0 r; Console (RetryRotating (isRateLimit e) 1 (S (S n)))]
                  ++ map Console lines ++ [Sleep (backoffDelay 0); Call u1 r])).
    + rewrite requestsOf_app, requestsOf_app, requestsOf_console. reflexivity.
    + cbn [noteCall trace w4 emit]. rewrite Htr.
      cbn [w2 w1 emit noteCall trace].
      rewrite <- !app_assoc. reflexivity.
  - rewrite (since_app w (noteCall u1 r w4)
               ([Call u0 r; Console (RetryRotating (isRateLimit e) 1 (S (S n)))]
                  ++ map Console lines ++ [Sleep (backoffDelay 0); Call u1 r])).
    + rewrite waitsOf_app, waitsOf_app, waitsOf_console. reflexivity.
    + cbn [noteCall trace w4 emit]. rewrite Htr.
      cbn [w2 w1 emit noteCall trace].
      rewrite <- !app_assoc. reflexivity.
Qed.

Lemma executeWithRetry_recovers_on_next_endpoint_witness :
  let host := recovering 689 in
  exists w',
    executeWithRetry host (contractCall LatestAnswer (latestAnswer host)) 3
      (fresh host)
    = (Return (Val 689), w') /\
    rpcIndex (self w') = 1 /\
    url (runner (contract (self w'))) = Some "https://base.llamarpc.com" /\
    calls w' = 2%nat /\
    requestsOf (since (fresh host) w') = [LatestAnswer; LatestAnswer] /\
    waitsOf (since (fresh host) w') = [1000].
Proof.
  cbv zeta.
  apply (executeWithRetry_recovers_on_next_endpoint (recovering 689)
           LatestAnswer (latestAnswer (recovering 689)) 1
           (fresh (recovering 689)) rateLimited 689).
  - vm_compute. split; congruence.
  - reflexivity.
  - reflexivity.
  - reflexivity.
Defined.

(** *** The waits between attempts *)

(** X4: the wait after attempt [i] (counted from 0) is 1000 ms doubled [i]
    times up to the fourth attempt and 10000 ms from the fifth on; it never
    shrinks from one attempt to the next and stays between 1000 and 10000
    ms. *)
Theorem backoffDelay_doubles_up_to_cap (i : nat) :
  1000 <= backoffDelay i <= 10000 /\
  backoffDelay i <= backoffDelay (S i) /\
  ((i <= 3)%nat -> backoffDelay i = 1000 * 2 ^ Z.of_nat i) /\
  ((4 <= i)%nat -> backoffDelay i = 10000).
Proof.
  unfold backoffDelay.
  assert (Hpos : 1 <= 2 ^ Z.of_nat i) by (apply Z.pow_le_mono_r with (b := 0); lia).
  assert (Hmono : 2 ^ Z.of_nat i <= 2 ^ Z.of_nat (S i))
    by (apply Z.pow_le_mono_r; lia).
  split; [lia|]. split; [lia|]. split.
  - intro Hi.
    assert (H3 : 2 ^ Z.of_nat i <= 2 ^ 3) by (apply Z.pow_le_mono_r; lia).
    change (2 ^ 3) with 8 in H3. lia.
  - intro Hi.
    assert (H4 : 2 ^ 4 <= 2 ^ Z.of_nat i) by (apply Z.pow_le_mono_r; lia).
    change (2 ^ 4) with 16 in H4. lia.
Qed.

(** *** What holds of every object *)

#[export] Instance stays_preorder (P : World -> Prop) : PreOrder (stays P).
Proof.
  split.
  - intros w H. exact H.
  - intros w1 w2 w3 H12 H23 H. apply H23, H12, H.
Qed.

Lemma wired_rotateRPC (host : Host) w : stays (wired host) w (rotateRPC host w).
Proof.
  intros (Hp & Hi & Hu & Hr & Ht & Ha & Hl & Hw).
  unfold wired, rotateRPC, removeAllListeners.
  destruct (removeAllListenersThrows host _);
    cbn -[Z.rem index RPC_ENDPOINTS]; rewrite Ha; cbn -[Z.rem index RPC_ENDPOINTS];
    rewrite Hp; change (Z.of_nat (List.length RPC_ENDPOINTS)) with 4;
    (split; [reflexivity|]);
    (split; [apply Z.rem_bound_pos; lia|]);
    repeat split; assumption.
Qed.

Lemma wired_rotateAndWait (host : Host) e i retries w :
  stays (wired host) w (rotateAndWait host e i retries w).
Proof.
  intro H.
  exact (wired_rotateRPC host
           (emit (Console (RetryRotating (isRateLimit e) (S i) retries)) w) H).
Qed.

Lemma wired_stopMonitoring (host : Host) w :
  stays (wired host) w (stopMonitoring host w).
Proof.
  intros (Hp & Hi & Hu & Hr & Ht & Ha & Hl & Hw).
  unfold wired, stopMonitoring, removeAllListeners.
  destruct (monitorInterval (self w));
    cbn [emit clearInterval self contract runner];
    destruct (removeAllListenersThrows host _); cbn; repeat split;
    assumption || lia.
Qed.

(** Every operation leaves a wired object wired. *)
Lemma wired_performAll (host : Host) ops w w' :
  performAll host ops w = Some w' -> wired host w -> wired host w'.
Proof.
  apply (kept_performAll host (stays (wired host))).
  - intros l w0 H. exact H.
  - apply wired_rotateAndWait.
  - intros u r w0 _ H. exact H.
  - apply (kept_getDecimals host (stays (wired host)) (wired_rotateAndWait host)).
    + intros u r w0 H. exact H.
    + intros v w0 H. exact H.
  - apply (kept_getDescription host (stays (wired host))
             (wired_rotateAndWait host)).
    + intros u r w0 H. exact H.
    + intros v w0 H. exact H.
  - intros intervalMs w0 H. exact H.
  - apply wired_stopMonitoring.
Qed.

Lemma wired_construct (host : Host) key : wired host (construct host key).
Proof. unfold wired. cbn. repeat split; lia. Qed.

Lemma wired_reachable (host : Host) w : reachable host w -> wired host w.
Proof.
  intros (key & ops & H).
  exact (wired_performAll host ops _ w H (wired_construct host key)).
Qed.

(** X5: whatever is done with the object, no listener is ever registered or
    installed on its contract handle: the registry stays empty, so the
    re-subscription step of a rotation never runs and the object is never
    subscribed to [AnswerUpdated]. *)
Theorem no_listener_is_ever_installed (host : Host) (w : World) :
  reachable host w ->
  activeListeners (self w) = [] /\
  listeners (contract (self w)) = [] /\
  ~ subscribed w /\
  reestablishEventListeners host w = w.
Proof.
  intro H. destruct (wired_reachable host w H) as (_ & _ & _ & _ & _ & Ha & Hl & _).
  split; [exact Ha|]. split; [exact Hl|]. split.
  - intros (handler & Hget & _). rewrite Ha in Hget. discriminate.
  - unfold reestablishEventListeners. rewrite Ha. cbn [fold_left].
    destruct w as [o c t n tr]. destruct o. cbn in *. subst. reflexivity.
Qed.

Lemma no_listener_is_ever_installed_witness :
  let host := failing rateLimited in
  exists w,
    performAll host [GetCurrentPrice; SetupEventListeners; StopMonitoring]
      (fresh host) = Some w /\
    rpcIndex (self w) = 1 /\
    activeListeners (self w) = [] /\
    listeners (contract (self w)) = [] /\
    ~ subscribed w /\
    reestablishEventListeners host w = w.
Proof.
  cbv zeta.
  destruct (performAll (failing rateLimited)
              [GetCurrentPrice; SetupEventListeners; StopMonitoring]
              (fresh (failing rateLimited))) as [w|] eqn:Hrun.
  - exists w. split; [reflexivity|]. split.
    + vm_compute in Hrun. inversion Hrun. reflexivity.
    + apply no_listener_is_ever_installed.
      exists key, [GetCurrentPrice; SetupEventListeners; StopMonitoring].
      exact Hrun.
  - vm_compute in Hrun. discriminate.
Defined.

(** X6: whatever is done with the object, the pool is the fixed list of four
    endpoints, the index points into it, the provider and the contract handle
    are bound to the endpoint at that index and the contract to the
    configured address; the wallet, set up once by the constructor, stays on
    the first endpoint however often the client rotates. *)
Theorem handles_follow_the_pool (host : Host) (w : World) :
  reachable host w ->
  let o := self w in
  rpcEndpoints o = RPC_ENDPOINTS /\
  0 <= rpcIndex o < 4 /\
  url (provider o) = index RPC_ENDPOINTS (rpcIndex o) /\
  url (runner (contract o)) = index RPC_ENDPOINTS (rpcIndex o) /\
  target (contract o) = ORACLE_CONTRACT_ADDRESS host /\
  url (walletProvider (wallet o)) = Some "https://mainnet.base.org".
Proof.
  intros H o.
  destruct (wired_reachable host w H) as (Hp & Hi & Hu & Hr & Ht & _ & _ & Hw).
  fold o in Hp, Hi, Hu, Hr, Ht, Hw.
  rewrite Hr, Hw. repeat split; assumption || lia.
Qed.

Lemma handles_follow_the_pool_witness :
  let host := failing rateLimited in
  exists w,
    performAll host [GetCurrentPrice; StopMonitoring] (fresh host) = Some w /\
    rpcIndex (self w) = 1 /\
    rpcEndpoints (self w) = RPC_ENDPOINTS /\
    0 <= rpcIndex (self w) < 4 /\
    url (provider (self w)) = index RPC_ENDPOINTS (rpcIndex (self w)) /\
    url (runner (contract (self w))) = index RPC_ENDPOINTS (rpcIndex (self w)) /\
    target (contract (self w)) = Some feedAddress /\
    url (walletProvider (wallet (self w))) = Some "https://mainnet.base.org".
Proof.
  cbv zeta.
  destruct (performAll (failing rateLimited) [GetCurrentPrice; StopMonitoring]
              (fresh (failing rateLimited))) as [w|] eqn:Hrun.
  - exists w. split; [reflexivity|]. split.
    + vm_compute in Hrun. inversion Hrun. reflexivity.
    + apply (handles_follow_the_pool (failing rateLimited) w).
      exists key, [GetCurrentPrice; StopMonitoring]. exact Hrun.
  - vm_compute in Hrun. discriminate.
Defined.

(** *** The monitor's timers *)

Lemma freshTimers_same w w' :
  timers w' = timers w -> nextTimer w' = nextTimer w -> stays freshTimers w w'.
Proof. unfold stays, freshTimers. intros -> ->. exact (fun H => H). Qed.

Lemma freshTimers_sameSchedule w w' : sameSchedule w w' -> stays freshTimers w w'.
Proof. intros (Ht & Hn & _). apply freshTimers_same; assumption. Qed.

Lemma stopMonitoring_schedule (host : Host) w :
  let w' := stopMonitoring host w in
  timers w'
  = match monitorInterval (self w) with
    | Some id => filter (fun t => negb (Nat.eqb (fst t) id)) (timers w)
    | None => timers w
    end /\
  nextTimer w' = nextTimer w /\
  monitorInterval (self w') = monitorInterval (self w).
Proof.
  cbv zeta. unfold stopMonitoring, removeAllListeners.
  destruct (monitorInterval (self w)) eqn:Hm;
    cbn [emit clearInterval self contract runner];
    destruct (removeAllListenersThrows host _); cbn; rewrite ?Hm;
    repeat split.
Qed.

Lemma freshTimers_stopMonitoring (host : Host) w :
  stays freshTimers w (stopMonitoring host w).
Proof.
  intros H t Hin.
  destruct (stopMonitoring_schedule host w) as (Ht & Hn & _).
  rewrite Hn. apply H. rewrite Ht in Hin.
  destruct (monitorInterval (self w)); [|exact Hin].
  apply filter_In in Hin. tauto.
Qed.

Lemma freshTimers_setInterval intervalMs w :
  stays freshTimers w (setInterval intervalMs w).
Proof.
  intros H t Hin. cbn [setInterval timers nextTimer] in *.
  apply in_app_or in Hin. destruct Hin as [Hin|[<-|[]]].
  - specialize (H t Hin). lia.
  - cbn. lia.
Qed.

Lemma freshTimers_performAll (host : Host) ops w w' :
  performAll host ops w = Some w' -> freshTimers w -> freshTimers w'.
Proof.
  apply (kept_performAll host (stays freshTimers)).
  - intros l w0. apply freshTimers_same; reflexivity.
  - intros e i retries w0.
    apply freshTimers_sameSchedule, sameSchedule_rotateAndWait.
  - intros u r w0 _. apply freshTimers_same; reflexivity.
  - apply (kept_getDecimals host (stays freshTimers)).
    + intros e i retries w0.
      apply freshTimers_sameSchedule, sameSchedule_rotateAndWait.
    + intros u r w0. apply freshTimers_same; reflexivity.
    + intros v w0. apply freshTimers_same; reflexivity.
  - apply (kept_getDescription host (stays freshTimers)).
    + intros e i retries w0.
      apply freshTimers_sameSchedule, sameSchedule_rotateAndWait.
    + intros u r w0. apply freshTimers_same; reflexivity.
    + intros v w0. apply freshTimers_same; reflexivity.
  - apply freshTimers_setInterval.
  - apply freshTimers_stopMonitoring.
Qed.

Lemma freshTimers_reachable (host : Host) w : reachable host w -> freshTimers w.
Proof.
  intros (key & ops & H).
  apply (freshTimers_performAll host ops _ w H). intros t [].
Qed.

(** A [monitorPrice] that returns has set exactly one timer, after its first
    poll. *)
Lemma monitorPrice_returns (host : Host) intervalMs w w1 :
  monitorPrice host intervalMs w = (Return tt, w1) ->
  exists w0, sameSchedule w w0 /\ w1 = setInterval intervalMs w0.
Proof.
  unfold monitorPrice, bind, console, run. intro H.
  pose proof (sameSchedule_displayCurrentPrice host
                (emit (Console (MonitorStarting intervalMs)) w)) as Hs.
  destruct (displayCurrentPrice host _) as [[[]|e] w0]; [|discriminate].
  cbn [snd] in Hs. exists w0. split.
  - etransitivity; [apply sameSchedule_emit | exact Hs].
  - inversion H. reflexivity.
Qed.

Lemma filter_other_ids id (l : list (nat * Z)) :
  (forall t, In t l -> (fst t < id)%nat) ->
  filter (fun t => negb (Nat.eqb (fst t) id)) l = l.
Proof.
  intro H. induction l as [|t l IH]; [reflexivity|].
  cbn [filter].
  destruct (Nat.eqb_spec (fst t) id) as [E|E].
  - specialize (H t (or_introl eq_refl)). lia.
  - cbn [negb]. f_equal. apply IH. intros t' Hin. apply H. right. exact Hin.
Qed.

Lemma existsb_other_ids id (l : list (nat * Z)) :
  (forall t, In t l -> (fst t < id)%nat) ->
  existsb (fun t => Nat.eqb (fst t) id) l = false.
Proof.
  intro H. induction l as [|t l IH]; [reflexivity|].
  cbn [existsb].
  destruct (Nat.eqb_spec (fst t) id) as [E|E].
  - specialize (H t (or_introl eq_refl)). lia.
  - apply IH. intros t' Hin. apply H. right. exact Hin.
Qed.

(** X7: on any object, a [monitorPrice] that returns has added exactly one
    timer with the given interval and remembers it; [stopMonitoring] then
    removes that timer and no other, after which the host firing it polls
    nothing.  The object still remembers the cancelled timer. *)
Theorem stopMonitoring_cancels_the_monitor
  (host : Host) (intervalMs : Z) (w w1 : World) :
  reachable host w ->
  monitorPrice host intervalMs w = (Return tt, w1) ->
  let id := nextTimer w in
  let w2 := stopMonitoring host w1 in
  timers w1 = (timers w ++ [(id, intervalMs)])%list /\
  monitorInterval (self w1) = Some id /\
  timers w2 = timers w /\
  fire host id w2 = (Return tt, w2) /\
  monitorInterval (self w2) = Some id.
Proof.
  intros Hreach Hrun id w2.
  pose proof (freshTimers_reachable host w Hreach) as Hfresh.
  destruct (monitorPrice_returns host intervalMs w w1 Hrun)
    as (w0 & (Ht & Hn & _) & ->).
  destruct (stopMonitoring_schedule host (setInterval intervalMs w0))
    as (Hst & _ & Hsm).
  fold w2 in Hst, Hsm.
  cbn [setInterval timers self setMonitorInterval monitorInterval] in *.
  rewrite Ht, Hn in *. fold id in Hst, Hsm |- *.
  assert (Hw2 : timers w2 = timers w).
  { rewrite Hst, filter_app, (filter_other_ids id (timers w) Hfresh).
    cbn [filter fst]. rewrite Nat.eqb_refl. apply app_nil_r. }
  split; [reflexivity|]. split; [reflexivity|]. split; [exact Hw2|].
  split; [|exact Hsm].
  unfold fire. rewrite Hw2, (existsb_other_ids id (timers w) Hfresh).
  reflexivity.
Qed.

Lemma stopMonitoring_cancels_the_monitor_witness :
  let host := steady 689 in
  let w1 := snd (monitorPrice host 60000 (fresh host)) in
  let w2 := stopMonitoring host w1 in
  timers w1 = [(0%nat, 60000)] /\
  monitorInterval (self w1) = Some 0%nat /\
  timers w2 = [] /\
  fire host 0 w2 = (Return tt, w2) /\
  monitorInterval (self w2) = Some 0%nat.
Proof.
  cbv zeta.
  apply (stopMonitoring_cancels_the_monitor (steady 689) 60000
           (fresh (steady 689))).
  - exists key, []. reflexivity.
  - vm_compute. reflexivity.
Defined.

Lemma stopMonitoring_again (host : Host) id l :
  (forall t, In t l -> (fst t < id)%nat) ->
  forall n w,
    timers w = l -> monitorInterval (self w) = Some id ->
    timers (Nat.iter n (stopMonitoring host) w) = l /\
    monitorInterval (self (Nat.iter n (stopMonitoring host) w)) = Some id.
Proof.
  intros Hl n. induction n as [|n IH]; intros w Ht Hm; [split; assumption|].
  rewrite Nat.iter_succ.
  destruct (IH w Ht Hm) as [Ht' Hm'].
  destruct (stopMonitoring_schedule host (Nat.iter n (stopMonitoring host) w))
    as (Hst & _ & Hsm).
  rewrite Hst, Hsm, Hm', Ht'. split; [|reflexivity].
  apply filter_other_ids, Hl.
Qed.

(** X8: when [monitorPrice] is called a second time while a monitor is
    running, the object forgets the first timer: however often
    [stopMonitoring] is called afterwards, only the second timer is removed,
    and the first one keeps polling whenever the host fires it. *)
Theorem second_monitor_leaks_the_first_timer
  (host : Host) (first second : Z) (w w1 w2 : World) (n : nat) :
  reachable host w ->
  monitorPrice host first w = (Return tt, w1) ->
  monitorPrice host second w1 = (Return tt, w2) ->
  let id := nextTimer w in
  let w3 := Nat.iter (S n) (stopMonitoring host) w2 in
  timers w2 = (timers w ++ [(id, first); (S id, second)])%list /\
  timers w3 = (timers w ++ [(id, first)])%list /\
  fire host id w3 = monitorTick host w3.
Proof.
  intros Hreach H1 H2 id w3.
  pose proof (freshTimers_reachable host w Hreach) as Hfresh.
  destruct (monitorPrice_returns host first w w1 H1)
    as (w0 & (Ht0 & Hn0 & _) & ->).
  destruct (monitorPrice_returns host second _ w2 H2)
    as (w0' & (Ht1 & Hn1 & _) & ->).
  cbn [setInterval timers nextTimer] in Ht1, Hn1.
  rewrite Ht0, Hn0 in *. fold id in Ht1, Hn1.
  assert (Ht2 : timers (setInterval second w0')
                = (timers w ++ [(id, first); (S id, second)])%list).
  { cbn [setInterval timers]. rewrite Ht1, Hn1, <- app_assoc. reflexivity. }
  split; [exact Ht2|].
  assert (Hold : forall t, In t (timers w ++ [(id, first)])%list ->
                           (fst t < S id)%nat).
  { intros t Hin. apply in_app_or in Hin. destruct Hin as [Hin|[<-|[]]].
    - specialize (Hfresh t Hin). fold id in Hfresh. lia.
    - cbn. lia. }
  destruct (stopMonitoring_schedule host (setInterval second w0'))
    as (Hst & _ & Hsm).
  cbn [setInterval self setMonitorInterval monitorInterval] in Hst, Hsm.
  rewrite Hn1 in Hst, Hsm.
  change (timers (setInterval second w0')) with
    (timers w0' ++ [(nextTimer w0', second)])%list in Ht2.
  cbn [setInterval timers] in Hst.
  rewrite Ht1, Hn1 in Hst.
  rewrite filter_app, (filter_other_ids (S id) _ Hold) in Hst.
  cbn [filter fst] in Hst. rewrite Nat.eqb_refl in Hst. cbn [negb] in Hst.
  rewrite app_nil_r in Hst.
  destruct (stopMonitoring_again host (S id) _ Hold n
              (stopMonitoring host (setInterval second w0')) Hst Hsm)
    as [Ht3 _].
  assert (E : w3 = Nat.iter n (stopMonitoring host)
                     (stopMonitoring host (setInterval second w0'))).
  { unfold w3. rewrite Nat.iter_succ_r. reflexivity. }
  rewrite <- E in Ht3. split; [exact Ht3|].
  unfold fire. rewrite Ht3, existsb_app. cbn [existsb fst].
  rewrite Nat.eqb_refl, orb_true_r. reflexivity.
Qed.

Lemma second_monitor_leaks_the_first_timer_witness :
  let host := steady 689 in
  let w1 := snd (monitorPrice host 60000 (fresh host)) in
  let w2 := snd (monitorPrice host 30000 w1) in
  let w3 := Nat.iter 2 (stopMonitoring host) w2 in
  timers w2 = [(0%nat, 60000); (1%nat, 30000)] /\
  timers w3 = [(0%nat, 60000)] /\
  fire host 0 w3 = monitorTick host w3.
Proof.
  cbv zeta.
  apply (second_monitor_leaks_the_first_timer (steady 689) 60000 30000
           (fresh (steady 689))
           (snd (monitorPrice (steady 689) 60000 (fresh (steady 689))))
           _ 1).
  - exists key, []. reflexivity.
  - vm_compute. reflexivity.
  - vm_compute. reflexivity.
Defined.

(** X9: a poll run by the timer never rejects.  When reading the price
    throws, the error is caught, its message is written to the console and
    nothing else happens; the timers are left as they were, so the next poll
    still comes. *)
Theorem scheduled_poll_contains_failures (host : Host) (w : World) :
  exists w',
    monitorTick host w = (Return tt, w') /\
    timers w' = timers w /\
    monitorInterval (self w') = monitorInterval (self w) /\
    forall e w1,
      getCurrentPrice host w = (Throw e, w1) ->
      w' = emit (Console (MonitorError (message e))) w1.
Proof.
  destruct (monitorTick_contained host w) as (w' & Hrun & Ht & _ & Hm).
  exists w'. split; [exact Hrun|]. split; [exact Ht|]. split; [exact Hm|].
  intros e w1 Hp.
  unfold monitorTick, tryCatch, displayCurrentPrice, bind in Hrun.
  rewrite Hp in Hrun. cbn in Hrun. inversion Hrun. reflexivity.
Qed.

(** *** Reads that fail *)

#[export] Instance sameCache_preorder : PreOrder sameCache.
Proof.
  split.
  - intro w. split; reflexivity.
  - intros w1 w2 w3 [H1 H2] [H3 H4]. split; congruence.
Qed.

Lemma sameCache_rotateAndWait (host : Host) e i retries w :
  sameCache w (rotateAndWait host e i retries w).
Proof.
  apply (kept_rotateAndWait host sameCache).
  - intros l w0. split; reflexivity.
  - intros ms w0. split; reflexivity.
  - intros f w0 Hf. destruct (Hf (self w0)) as (H1 & H2 & _). split; assumption.
Qed.

Lemma sameCache_executeWithRetry (host : Host) {A} r
  (respond : nat -> option string -> Completion A) retries :
  keeps sameCache (executeWithRetry host (contractCall r respond) retries).
Proof.
  apply (keeps_executeWithRetry host sameCache (sameCache_rotateAndWait host)).
  intro w. split; reflexivity.
Qed.

Lemma calls_rotateAndWait (host : Host) e i retries w :
  calls (rotateAndWait host e i retries w) = calls w.
Proof.
  unfold rotateAndWait. cbn [emit calls].
  destruct (chatter_rotateRPC host
              (emit (Console (RetryRotating (isRateLimit e) (S i) retries)) w))
    as (H & _).
  exact H.
Qed.

(** A throw comes from the last attempt: all the attempts have been made. *)
Lemma retryLoop_throws_calls (host : Host) {A} (fn : M A) retries :
  (forall w, calls (snd (fn w)) = S (calls w)) ->
  forall remaining i w e w',
    (i + remaining = retries)%nat ->
    retryLoop host fn retries remaining i w = (Throw e, w') ->
    calls w' = (calls w + remaining)%nat.
Proof.
  intros Hfn remaining.
  induction remaining as [|remaining IH]; intros i w e w' Hi H;
    cbn [retryLoop] in H; [discriminate|].
  specialize (Hfn w).
  destruct (fn w) as [[a|e0] w1]; [discriminate|]. cbn [snd] in Hfn.
  destruct (isRateLimit e0 || isFilterError e0).
  - rewrite (IH (S i) _ e w') by (lia || exact H).
    rewrite calls_rotateAndWait, Hfn. lia.
  - destruct (Nat.eqb_spec (S i) retries) as [E|E].
    + inversion H; subst. rewrite Hfn. lia.
    + rewrite (IH (S i) _ e w') by (lia || exact H). rewrite Hfn. lia.
Qed.

Lemma getDecimals_throws (host : Host) w e w' :
  getDecimals host w = (Throw e, w') ->
  cachedDecimals (self w) = Null /\
  executeWithRetry host (contractCall Decimals (decimals host)) 3 w
  = (Throw e, w').
Proof.
  unfold getDecimals. intro H.
  destruct (cachedDecimals (self w)); try discriminate.
  destruct (executeWithRetry host _ 3 w) as [[v|e0] w1]; [discriminate|].
  inversion H; subst. split; reflexivity.
Qed.

Lemma getDescription_throws (host : Host) w e w' :
  getDescription host w = (Throw e, w') ->
  cachedDescription (self w) = Null /\
  executeWithRetry host (contractCall Description (description host)) 3 w
  = (Throw e, w').
Proof.
  unfold getDescription. intro H.
  destruct (cachedDescription (self w)); try discriminate.
  destruct (executeWithRetry host _ 3 w) as [[v|e0] w1]; [discriminate|].
  inversion H; subst. split; reflexivity.
Qed.

Lemma executeWithRetry_throws_fatal (host : Host) {A} (fn : M A) retries w e w' :
  executeWithRetry host fn retries w = (Throw e, w') ->
  isRateLimit e = false /\ isFilterError e = false.
Proof.
  intro H. destruct (retryLoop_throws host fn retries _ _ _ _ _ H) as [Ht _].
  unfold isTransient in Ht. apply orb_false_iff in Ht. exact Ht.
Qed.



(** X11: an error that reaches the caller of [getCurrentPrice] is never a
    rate-limit or filter error, and it has been written to the console just
    before: the last line logged is that error. *)
Theorem price_rejection_is_fatal_and_logged
  (host : Host) (w w' : World) (e : Error) :
  getCurrentPrice host w = (Throw e, w') ->
  isRateLimit e = false /\
  isFilterError e = false /\
  exists w0, w' = emit (Console (PriceError e)) w0.
Proof.
  unfold getCurrentPrice, limit, tryCatch, bind. intro H.
  destruct (getDecimals host w) as [[d|e0] w1] eqn:Hd.
  - destruct (getDescription host w1) as [[descr|e1] w2] eqn:Hs.
    + destruct (executeWithRetry host _ 3 w2) as [[latest|e2] w3] eqn:Hl.
      * discriminate.
      * cbn in H. inversion H; subst.
        destruct (executeWithRetry_throws_fatal host _ _ _ _ _ Hl).
        eauto.
    + cbn in H. inversion H; subst.
      destruct (getDescription_throws host _ _ _ Hs) as [_ Hrun].
      destruct (executeWithRetry_throws_fatal host _ _ _ _ _ Hrun).
      eauto.
  - cbn in H. inversion H; subst.
    destruct (getDecimals_throws host _ _ _ Hd) as [_ Hrun].
    destruct (executeWithRetry_throws_fatal host _ _ _ _ _ Hrun).
    eauto.
Qed.

Lemma price_rejection_is_fatal_and_logged_witness :
  let host := failing networkDown in
  isRateLimit networkDown = false /\
  isFilterError networkDown = false /\
  exists w0,
    snd (getCurrentPrice host (fresh host))
    = emit (Console (PriceError networkDown)) w0.
Proof.
  cbv zeta.
  apply (price_rejection_is_fatal_and_logged (failing networkDown)
           (fresh (failing networkDown))).
  vm_compute. reflexivity.
Defined.

(** X12: an error that reaches the caller of [getLatestRoundData] is never a
    rate-limit or filter error either (it may be a TypeError or RangeError
    of the method's own), and it has been written to the console just
    before. *)
Theorem round_rejection_is_fatal_and_logged
  (host : Host) (w w' : World) (e : Error) :
  getLatestRoundData host w = (Throw e, w') ->
  isRateLimit e = false /\
  isFilterError e = false /\
  exists w0, w' = emit (Console (RoundError e)) w0.
Proof.
  unfold getLatestRoundData, limit, tryCatch, bind. intro H.
  destruct (getDecimals host w) as [[d|e0] w1] eqn:Hd.
  - destruct (executeWithRetry host _ 3 w1) as [[roundData|e2] w3] eqn:Hl.
    + destruct roundData as [| |r]; cbn in H.
      * inversion H; subst. eauto.
      * inversion H; subst. eauto.
      * unfold complete, toISOString in H.
        destruct (timeClip _); cbn in H; [discriminate|].
        inversion H; subst. eauto.
    + cbn in H. inversion H; subst.
      destruct (executeWithRetry_throws_fatal host _ _ _ _ _ Hl).
      eauto.
  - cbn in H. inversion H; subst.
    destruct (getDecimals_throws host _ _ _ Hd) as [_ Hrun].
    destruct (executeWithRetry_throws_fatal host _ _ _ _ _ Hrun).
    eauto.
Qed.

Lemma round_rejection_is_fatal_and_logged_witness :
  let host := failing rateLimited in
  let e := TypeError "Cannot read properties of undefined (reading 'answer')" in
  isRateLimit e = false /\
  isFilterError e = false /\
  exists w0,
    snd (getLatestRoundData host (fresh host)) = emit (Console (RoundError e)) w0.
Proof.
  cbv zeta.
  apply (round_rejection_is_fatal_and_logged (failing rateLimited)
           (fresh (failing rateLimited))).
  vm_compute. reflexivity.
Defined.

Lemma executeWithRetry_limited (host : Host) {A} r
  (respond : nat -> option string -> Completion A) w :
  alwaysLimited respond ->
  exists w',
    executeWithRetry host (contractCall r respond) 3 w = (Return Undefined, w').
Proof.
  intro H. unfold executeWithRetry.
  exact (retryLoop_transient_undefined host (contractCall r respond)
           (contractCall_alwaysTransient r respond H) 3 3 0 w).
Qed.

Lemma getDecimals_limited (host : Host) w :
  alwaysLimited (decimals host) ->
  exists d w', getDecimals host w = (Return d, w').
Proof.
  intro H. unfold getDecimals.
  destruct (cachedDecimals (self w)); eauto.
  destruct (executeWithRetry_limited host Decimals (decimals host) w H)
    as [w' ->].
  eauto.
Qed.

Lemma getDescription_limited (host : Host) w :
  alwaysLimited (description host) ->
  exists d w', getDescription host w = (Return d, w').
Proof.
  intro H. unfold getDescription.
  destruct (cachedDescription (self w)); eauto.
  destruct (executeWithRetry_limited host Description (description host) w H)
    as [w' ->].
  eauto.
Qed.

Lemma inverseRate_undefined d : inverseRate Undefined d = NaN.
Proof.
  unfold inverseRate, div. cbn [Number_].
  destruct (pow10 d) as [[|]|[|]| |[|] m e]; reflexivity.
Qed.

(** X13: when the provider answers every read with a rate-limit or filter
    error, [getCurrentPrice] does not reject.  It resolves with a quote whose
    two rates are NaN, shown as "1 USD = NaN NGN" and "1 NGN = NaN USD",
    whether or not the static values were cached before. *)
Theorem rate_limited_price_is_NaN (host : Host) (w : World) :
  alwaysLimited (decimals host) ->
  alwaysLimited (description host) ->
  alwaysLimited (latestAnswer host) ->
  exists p w',
    getCurrentPrice host w = (Return p, w') /\
    ngnToUsd p = NaN /\
    usdToNgn p = NaN /\
    formattedPrice p = "1 USD = NaN NGN" /\
    reversePrice p = "1 NGN = NaN USD".
Proof.
  intros Hd Hs Hl.
  destruct (getDecimals_limited host w Hd) as (d & w1 & H1).
  destruct (getDescription_limited host w1 Hs) as (descr & w2 & H2).
  destruct (executeWithRetry_limited host LatestAnswer (latestAnswer host) w2 Hl)
    as (w3 & H3).
  eexists. exists w3.
  split; [exact (getCurrentPrice_returns host w w1 w2 w3 d descr _ H1 H2 H3)|].
  cbn [ngnToUsd usdToNgn formattedPrice reversePrice].
  rewrite inverseRate_undefined. repeat split.
Qed.

Lemma rate_limited_price_is_NaN_witness :
  let host := failing filterExpired in
  exists p w',
    getCurrentPrice host (fresh host) = (Return p, w') /\
    ngnToUsd p = NaN /\
    usdToNgn p = NaN /\
    formattedPrice p = "1 USD = NaN NGN" /\
    reversePrice p = "1 NGN = NaN USD".
Proof.
  cbv zeta.
  apply (rate_limited_price_is_NaN (failing filterExpired)
           (fresh (failing filterExpired)));
    intros k u; exists filterExpired; split; reflexivity.
Defined.

(** X14: when the provider answers every read with a rate-limit or filter
    error, [getLatestRoundData] rejects, with the TypeError of reading
    [answer] from [undefined], which it has logged: the retry of the round
    read resolved with [undefined] instead of throwing. *)
Theorem rate_limited_round_is_a_TypeError (host : Host) (w : World) :
  alwaysLimited (decimals host) ->
  alwaysLimited (latestRoundData host) ->
  let e := TypeError "Cannot read properties of undefined (reading 'answer')" in
  exists w0,
    getLatestRoundData host w = (Throw e, emit (Console (RoundError e)) w0).
Proof.
  intros Hd Hr e.
  destruct (getDecimals_limited host w Hd) as (d & w1 & H1).
  destruct (executeWithRetry_limited host LatestRoundData (latestRoundData host)
              w1 Hr) as (w2 & H2).
  exists w2.
  unfold getLatestRoundData, limit, tryCatch, bind.
  rewrite H1, H2. reflexivity.
Qed.

Lemma rate_limited_round_is_a_TypeError_witness :
  let host := failing rateLimited in
  let e := TypeError "Cannot read properties of undefined (reading 'answer')" in
  exists w0,
    getLatestRoundData host (fresh host)
    = (Throw e, emit (Console (RoundError e)) w0).
Proof.
  cbv zeta.
  apply (rate_limited_round_is_a_TypeError (failing rateLimited)
           (fresh (failing rateLimited)));
    intros k u; exists rateLimited; split; reflexivity.
Defined.

(** *** Historical queries *)

Lemma queryBatch_returns (host : Host) batch w :
  exists r w', queryBatch host batch w = (Return r, w').
Proof.
  unfold queryBatch, limit, tryCatch.
  destruct (executeWithRetry host _ 3 w) as [[r|e] w1];
    unfold bind, console, run, ret; eauto.
Qed.

(** The batch tasks never reject: each one catches what its query throws. *)
Lemma queryBatches_returns (host : Host) batches :
  forall w, exists rs w', queryBatches host batches w = (Return rs, w').
Proof.
  induction batches as [|b bs IH]; intro w; cbn [queryBatches].
  - unfold ret. eauto.
  - unfold bind. destruct (queryBatch_returns host b w) as (r & w1 & ->).
    destruct (IH w1) as (rs & w2 & ->). unfold ret. eauto.
Qed.

Lemma planQueries_completes currentBlock blockRange batchSize :
  0 < batchSize \/ blockRange <= batchSize ->
  exists plan, planQueries currentBlock blockRange batchSize = Some plan.
Proof.
  intro H. unfold planQueries.
  destruct (Z.leb_spec blockRange batchSize) as [Hle|Hgt]; [eauto|].
  assert (Hb : 0 < batchSize) by lia.
  destruct (subtractRange currentBlock blockRange) as [i|]; [|eauto].
  destruct currentBlock as [| |head]; [|eauto|].
  - destruct (makeBatches_terminates i 0 batchSize Hb) as [bs ->]. eauto.
  - destruct (makeBatches_terminates i head batchSize Hb) as [bs ->]. eauto.
Qed.

(** X15: [queryHistoricalEvents] runs to completion, whatever the provider
    answers, for every positive batch size, and also whenever the range does
    not exceed the batch size: it then either resolves or rejects. *)
Theorem historical_query_completes
  (host : Host) (blockRange batchSize : Z) (w : World) :
  0 < batchSize \/ blockRange <= batchSize ->
  exists r w', queryHistoricalEvents host blockRange batchSize w = Some (r, w').
Proof.
  intro H. unfold queryHistoricalEvents.
  destruct (executeWithRetry host _ 3 _) as [[currentBlock|e] w1]; [|eauto].
  destruct (planQueries_completes currentBlock blockRange batchSize H)
    as [[fromBlock toBlock|batches] ->].
  - destruct (limit _ w1) as [[events|e] w2]; [|eauto].
    destruct (processEvents host (asElements events) w2) as [r w3]. eauto.
  - destruct (queryBatches host batches _) as [[results|e] w3]; [|eauto].
    destruct (processEvents host (Val (flat results)) _) as [r w4]. eauto.
Qed.

Lemma historical_query_completes_witness :
  exists r w',
    queryHistoricalEvents (failing rateLimited) 50 50
      (fresh (failing rateLimited)) = Some (r, w').
Proof.
  apply (historical_query_completes (failing rateLimited) 50 50
           (fresh (failing rateLimited))).
  left. lia.
Defined.

(** X16: with a batch size that is zero or negative and a larger,
    non-negative range, once the head is read the loop that fills [batches]
    has no end, whatever the number of rounds it is given:
    [queryHistoricalEvents] never completes. *)
Theorem historical_query_never_completes
  (host : Host) (blockRange batchSize head : Z) (w w1 : World) :
  batchSize <= 0 ->
  0 <= blockRange ->
  batchSize < blockRange ->
  executeWithRetry host (providerCall GetBlockNumber (getBlockNumber host)) 3
    (emit (Console (QueryingHistory blockRange)) w)
  = (Return (Val head), w1) ->
  (forall fuel, batchLoop fuel (head - blockRange) head batchSize = None) /\
  queryHistoricalEvents host blockRange batchSize w = None.
Proof.
  intros Hb Hr Hlt Hhead.
  assert (Hloop : forall fuel,
             batchLoop fuel (head - blockRange) head batchSize = None).
  { intro fuel. apply makeBatches_diverges; lia. }
  split; [exact Hloop|].
  unfold queryHistoricalEvents. rewrite Hhead.
  unfold planQueries, subtractRange, makeBatches.
  destruct (Z.leb_spec blockRange batchSize) as [Hle|_]; [lia|].
  rewrite Hloop. reflexivity.
Qed.

Lemma historical_query_never_completes_witness :
  (forall fuel, batchLoop fuel (1000 - 100) 1000 0 = None) /\
  queryHistoricalEvents (steady 689) 100 0 (fresh (steady 689)) = None.
Proof.
  apply (historical_query_never_completes (steady 689) 100 0 1000
           (fresh (steady 689))
           (snd (executeWithRetry (steady 689)
                   (providerCall GetBlockNumber (getBlockNumber (steady 689))) 3
                   (emit (Console (QueryingHistory 100))
                      (fresh (steady 689)))))).
  - lia.
  - lia.
  - lia.
  - vm_compute. reflexivity.
Defined.

Lemma Partition_length batchSize currentBlock :
  0 < batchSize ->
  forall i batches,
    Partition batchSize currentBlock i batches ->
    Z.of_nat (List.length batches) = (currentBlock - i) / batchSize + 1.
Proof.
  intros Hb i batches H. induction H as [i Hlo Hhi | i rest Hlt H IH].
  - rewrite Z.div_small by lia. reflexivity.
  - cbn [List.length]. rewrite Nat2Z.inj_succ, IH.
    replace (currentBlock - i)
      with (currentBlock - (i + batchSize) + 1 * batchSize) by lia.
    rewrite Z.div_add by lia. lia.
Qed.

Lemma Partition_last_single batchSize currentBlock :
  0 < batchSize ->
  forall i batches,
    Partition batchSize currentBlock i batches ->
    (exists k, 0 <= k /\ currentBlock - i = k * batchSize) ->
    last batches {| from := 0; to := 0 |}
    = {| from := currentBlock; to := currentBlock |}.
Proof.
  intros Hb i batches H. induction H as [i Hlo Hhi | i rest Hlt H IH];
    intros (k & Hk0 & Hk).
  - assert (k = 0) by nia. subst k. cbn [last]. f_equal. lia.
  - assert (IH' : last rest {| from := 0; to := 0 |}
                  = {| from := currentBlock; to := currentBlock |}).
    { apply IH. exists (k - 1). split; [nia | lia]. }
    destruct rest as [|b rest']; [inversion H|].
    exact IH'.
Qed.

(** X17: for any head, batch size and larger range, the windows asked of the
    provider are consecutive, do not overlap, each span [batchSize] blocks
    but the last, run from [head - blockRange] to the head, and there are
    [blockRange / batchSize + 1] of them (integer division): the range holds
    [blockRange + 1] blocks, so a range that is a multiple of the batch size
    ends with a window of one block. *)
Theorem historical_windows_in_general (head blockRange batchSize : Z) :
  0 < batchSize ->
  batchSize < blockRange ->
  exists batches,
    planQueries (Val head) blockRange batchSize = Some (Batches batches) /\
    Partition batchSize head (head - blockRange) batches /\
    Z.of_nat (List.length batches) = blockRange / batchSize + 1 /\
    (blockRange mod batchSize = 0 ->
     last batches {| from := 0; to := 0 |} = {| from := head; to := head |}).
Proof.
  intros Hb Hlt.
  destruct (makeBatches_partition (head - blockRange) head batchSize Hb)
    as (batches & Hm & Hp); [lia|].
  exists batches. split; [|split; [exact Hp|split]].
  - unfold planQueries, subtractRange.
    destruct (Z.leb_spec blockRange batchSize); [lia|].
    rewrite Hm. reflexivity.
  - rewrite (Partition_length batchSize head Hb _ _ Hp). f_equal. f_equal. lia.
  - intro Hmod.
    apply (Partition_last_single batchSize head Hb _ _ Hp).
    exists (blockRange / batchSize). split; [apply Z.div_pos; lia|].
    rewrite (Z.div_mod blockRange batchSize) at 1 by lia.
    rewrite Hmod. lia.
Qed.

Lemma historical_windows_in_general_witness :
  exists batches,
    planQueries (Val 1000) 100 50 = Some (Batches batches) /\
    Partition 50 1000 (1000 - 100) batches /\
    Z.of_nat (List.length batches) = 100 / 50 + 1 /\
    (100 mod 50 = 0 ->
     last batches {| from := 0; to := 0 |} = {| from := 1000; to := 1000 |}).
Proof.
  apply (historical_windows_in_general 1000 100 50); lia.
Defined.

Lemma mapCompletion_processEvent d :
  forall events records,
    mapCompletion (processEvent d) events = Return records ->
    exists logs,
      events = map Val logs /\
      map h_blockNumber records = map log_blockNumber logs /\
      map h_transactionHash records = map log_transactionHash logs /\
      map h_ngnToUsd records
      = map (fun ev => inverseRate (Val (log_current ev)) d) logs.
Proof.
  induction events as [|ev events IH]; intros records H; cbn [mapCompletion] in H.
  - inversion H. exists []. repeat split.
  - destruct (processEvent d ev) as [record|e] eqn:Hev; [|discriminate].
    destruct (mapCompletion (processEvent d) events) as [rest|e] eqn:Hrest;
      [|discriminate].
    inversion H; subst records; clear H.
    destruct (IH rest eq_refl) as (logs & -> & Hb & Ht & Hr).
    destruct ev as [| |log]; cbn [processEvent] in Hev; try discriminate.
    destruct (toISOString _); [|discriminate].
    inversion Hev; subst record; clear Hev.
    exists (log :: logs). cbn [map h_blockNumber h_transactionHash h_ngnToUsd].
    rewrite Hb, Ht, Hr. repeat split.
Qed.



Lemma processEvents_throws (host : Host) events w e w' :
  processEvents host events w = (Throw e, w') ->
  isRateLimit e = false /\ isFilterError e = false.
Proof.
  unfold processEvents, bind, complete, throw. intro H.
  destruct (getDecimals host w) as [[d|e0] w1] eqn:Hd.
  - destruct events as [| |l].
    + inversion H. split; reflexivity.
    + inversion H. split; reflexivity.
    + destruct (mapCompletion (processEvent d) l) as [rs|e1] eqn:Hmap;
        [discriminate|].
      inversion H; subst; clear H.
      revert Hmap. induction l as [|ev l IH]; cbn [mapCompletion];
        [discriminate|].
      destruct (processEvent d ev) as [record|e2] eqn:Hev.
      * destruct (mapCompletion (processEvent d) l); [discriminate|].
        intro E. inversion E; subst. apply IH. reflexivity.
      * intro E. inversion E; subst; clear E.
        destruct ev as [| |log]; cbn [processEvent] in Hev.
        -- inversion Hev. split; reflexivity.
        -- inversion Hev. split; reflexivity.
        -- unfold toISOString in Hev. destruct (timeClip _); [discriminate|].
           inversion Hev. split; reflexivity.
  - inversion H; subst.
    destruct (getDecimals_throws host _ _ _ Hd) as [_ Hrun].
    exact (executeWithRetry_throws_fatal host _ _ _ _ _ Hrun).
Qed.

(** X19: the only way [queryHistoricalEvents] rejects is through
    [processEvents], whose promise it returns without awaiting it: whatever
    the head read or a window query throws is caught and turned into an
    empty result.  The error of a rejection is never a rate-limit or filter
    error. *)
Theorem historical_query_rejects_only_in_processEvents
  (host : Host) (blockRange batchSize : Z) (w w' : World) (e : Error) :
  queryHistoricalEvents host blockRange batchSize w = Some (Throw e, w') ->
  (exists events w0, processEvents host events w0 = (Throw e, w')) /\
  isRateLimit e = false /\
  isFilterError e = false.
Proof.
  unfold queryHistoricalEvents. intro H.
  assert (Hgoal : exists events w0, processEvents host events w0 = (Throw e, w')).
  { destruct (executeWithRetry host _ 3 _) as [[currentBlock|e0] w1];
      [|discriminate].
    destruct (planQueries currentBlock blockRange batchSize)
      as [[fromBlock toBlock|batches]|]; [| |discriminate].
    - destruct (limit _ w1) as [[events|e1] w2]; [|discriminate].
      inversion H as [E]. eauto.
    - destruct (queryBatches host batches _) as [[results|e1] w3];
        [|discriminate].
      inversion H as [E]. eauto. }
  split; [exact Hgoal|].
  destruct Hgoal as (events & w0 & Hp).
  exact (processEvents_throws host events w0 e w' Hp).
Qed.

Lemma historical_query_rejects_only_in_processEvents_witness :
  let host := badWindow 930 rateLimited in
  let e := TypeError "Cannot read properties of undefined (reading 'args')" in
  (exists events w0,
      processEvents host events w0
      = (Throw e,
         match queryHistoricalEvents host 120 50 (fresh host) with
         | Some (_, w') => w'
         | None => fresh host
         end)) /\
  isRateLimit e = false /\
  isFilterError e = false.
Proof.
  cbv zeta.
  apply (historical_query_rejects_only_in_processEvents
           (badWindow 930 rateLimited) 120 50
           (fresh (badWindow 930 rateLimited))).
  vm_compute. reflexivity.
Defined.

Lemma retryLoop_fatal_provider (host : Host) {A} r
  (respond : nat -> option string -> Completion A) retries :
  (forall k u, exists e, respond k u = Throw e /\ isTransient e = false) ->
  forall remaining i w,
    (i + S remaining = retries)%nat ->
    exists e,
      respond (calls w + remaining)%nat (url (provider (self w))) = Throw e /\
      retryLoop host (providerCall r respond) retries (S remaining) i w
      = (Throw e,
         Nat.iter (S remaining) (noteCall (url (provider (self w))) r) w).
Proof.
  intros Hfatal remaining.
  induction remaining as [|remaining IH]; intros i w Hi.
  - destruct (Hfatal (calls w) (url (provider (self w)))) as (e & He & Ht).
    exists e. rewrite Nat.add_0_r. split; [exact He|].
    cbn [retryLoop]. unfold providerCall at 1.
    rewrite He. unfold isTransient in Ht. rewrite Ht.
    replace (Nat.eqb (S i) retries) with true
      by (symmetry; apply Nat.eqb_eq; lia).
    reflexivity.
  - destruct (Hfatal (calls w) (url (provider (self w)))) as (e0 & He0 & Ht0).
    destruct (IH (S i) (noteCall (url (provider (self w))) r w))
      as (e & He & Hrun); [lia|].
    exists e. split.
    + rewrite <- He. cbn [noteCall self calls provider]. f_equal. lia.
    + remember (S remaining) as n eqn:Hn.
      cbn [retryLoop]. unfold providerCall at 1.
      rewrite He0. unfold isTransient in Ht0. rewrite Ht0.
      replace (Nat.eqb (S i) retries) with false
        by (symmetry; apply Nat.eqb_neq; lia).
      rewrite Hrun. cbn [noteCall self provider].
      rewrite (Nat.iter_succ_r n). reflexivity.
Qed.



(** *** What a call costs *)

Lemma totalWait_app l1 l2 : totalWait (l1 ++ l2) = totalWait l1 + totalWait l2.
Proof.
  unfold totalWait. rewrite waitsOf_app.
  induction (waitsOf l1) as [|x xs IH]; cbn [fold_right app]; lia.
Qed.

Lemma within_refl w : within 0 0 w w.
Proof.
  exists []. rewrite app_nil_r. cbn. repeat split; lia.
Qed.

Lemma within_trans n1 m1 n2 m2 w1 w2 w3 :
  within n1 m1 w1 w2 -> within n2 m2 w2 w3 ->
  within (n1 + n2) (m1 + m2) w1 w3.
Proof.
  intros (l1 & Ht1 & Hc1 & Hn1 & Hw1) (l2 & Ht2 & Hc2 & Hn2 & Hw2).
  exists (l1 ++ l2)%list.
  rewrite requestsOf_app, length_app, totalWait_app.
  split; [rewrite Ht2, Ht1, app_assoc; reflexivity|].
  repeat split; lia.
Qed.

Lemma within_weaken n m n' m' w w' :
  within n m w w' -> (n <= n')%nat -> m <= m' -> within n' m' w w'.
Proof.
  intros (l & Ht & Hc & Hn & Hw) Hn' Hm'. exists l. repeat split; try lia.
  exact Ht.
Qed.

Lemma within_console l w : within 0 0 w (emit (Console l) w).
Proof. exists [Console l]. cbn. repeat split; lia. Qed.

Lemma within_update f w : within 0 0 w (withSelf f w).
Proof. exact (within_refl w). Qed.

Lemma within_noteCall u r w : within 1 0 w (noteCall u r w).
Proof. exists [Call u r]. cbn. repeat split; lia. Qed.

Lemma totalWait_console lines : totalWait (map Console lines) = 0.
Proof. unfold totalWait. rewrite waitsOf_console. reflexivity. Qed.

Lemma backoffDelay_pos i : 0 <= backoffDelay i.
Proof.
  unfold backoffDelay.
  assert (1 <= 2 ^ Z.of_nat i) by (apply Z.pow_le_mono_r with (b := 0); lia).
  lia.
Qed.

Lemma within_rotateAndWait (host : Host) e i retries w :
  within 0 (backoffDelay i) w (rotateAndWait host e i retries w).
Proof.
  unfold rotateAndWait.
  destruct (chatter_rotateRPC host
              (emit (Console (RetryRotating (isRateLimit e) (S i) retries)) w))
    as (Hc & _ & _ & lines & Ht).
  exists (Console (RetryRotating (isRateLimit e) (S i) retries)
            :: map Console lines ++ [Sleep (backoffDelay i)])%list.
  pose proof (backoffDelay_pos i).
  cbn [emit trace calls]. rewrite Ht, Hc. cbn [emit trace calls].
  split; [rewrite <- !app_assoc; reflexivity|].
  change (Console ?c :: ?l)%list with ([Console c] ++ l)%list.
  rewrite !requestsOf_app, requestsOf_console, !totalWait_app,
    totalWait_console.
  cbn. repeat split; lia.
Qed.

Lemma backoffTotal_pos remaining : forall i, 0 <= backoffTotal i remaining.
Proof.
  induction remaining as [|remaining IH]; intro i; cbn [backoffTotal]; [lia|].
  pose proof (backoffDelay_pos i). pose proof (IH (S i)). lia.
Qed.

(** The loop makes at most one call, and waits at most once, per round. *)
Lemma within_retryLoop (host : Host) {A} (fn : M A) retries :
  (forall w, within 1 0 w (snd (fn w))) ->
  forall remaining i w,
    within remaining (backoffTotal i remaining) w
      (snd (retryLoop host fn retries remaining i w)).
Proof.
  intros Hfn remaining.
  induction remaining as [|remaining IH]; intros i w;
    cbn [retryLoop backoffTotal]; [apply within_refl|].
  specialize (Hfn w).
  pose proof (backoffDelay_pos i). pose proof (backoffTotal_pos remaining (S i)).
  destruct (fn w) as [[a|e] w1]; cbn [snd] in *.
  - apply (within_weaken _ _ _ _ _ _ Hfn); lia.
  - destruct (isRateLimit e || isFilterError e).
    + apply (within_weaken (1 + 0 + remaining)
               (0 + backoffDelay i + backoffTotal (S i) remaining));
        [|lia|lia].
      eapply within_trans; [|apply IH].
      eapply within_trans; [exact Hfn | apply within_rotateAndWait].
    + destruct (Nat.eqb (S i) retries); cbn [snd].
      * apply (within_weaken _ _ _ _ _ _ Hfn); lia.
      * apply (within_weaken (1 + remaining) (0 + backoffTotal (S i) remaining));
          [|lia|lia].
        eapply within_trans; [exact Hfn | apply IH].
Qed.

Lemma within_contractCall (host : Host) {A} r
  (respond : nat -> option string -> Completion A) w :
  within 3 7000 w (snd (executeWithRetry host (contractCall r respond) 3 w)).
Proof.
  apply (within_retryLoop host (contractCall r respond) 3
           (fun w0 => within_noteCall _ r w0) 3 0 w).
Qed.

Lemma within_getDecimals (host : Host) w :
  within 3 7000 w (snd (getDecimals host w)).
Proof.
  unfold getDecimals.
  pose proof (within_contractCall host Decimals (decimals host) w) as H.
  destruct (cachedDecimals (self w));
    try (apply (within_weaken 0 0); [apply within_refl | lia | lia]).
  destruct (executeWithRetry host _ 3 w) as [[v|e] w1]; exact H.
Qed.

Lemma within_getDescription (host : Host) w :
  within 3 7000 w (snd (getDescription host w)).
Proof.
  unfold getDescription.
  pose proof (within_contractCall host Description (description host) w) as H.
  destruct (cachedDescription (self w));
    try (apply (within_weaken 0 0); [apply within_refl | lia | lia]).
  destruct (executeWithRetry host _ 3 w) as [[v|e] w1]; exact H.
Qed.

(** X21: one [getCurrentPrice] makes at most 9 calls to the provider and
    waits at most 21 seconds in all between attempts; one
    [getLatestRoundData] at most 6 calls and 14 seconds.  Both bounds are
    reached on a new object whose provider is rate-limited throughout. *)
Theorem reads_have_bounded_cost (host : Host) (w : World) :
  within 9 21000 w (snd (getCurrentPrice host w)) /\
  within 6 14000 w (snd (getLatestRoundData host w)) /\
  let limited := failing rateLimited in
  let price := since (fresh limited) (snd (getCurrentPrice limited (fresh limited))) in
  let round :=
    since (fresh limited) (snd (getLatestRoundData limited (fresh limited))) in
  List.length (requestsOf price) = 9%nat /\ totalWait price = 21000 /\
  List.length (requestsOf round) = 6%nat /\ totalWait round = 14000.
Proof.
  split; [|split].
  - unfold getCurrentPrice, limit, tryCatch, bind.
    pose proof (within_getDecimals host w) as H1.
    destruct (getDecimals host w) as [[d|e] w1]; cbn [snd] in H1.
    + pose proof (within_getDescription host w1) as H2.
      destruct (getDescription host w1) as [[descr|e] w2]; cbn [snd] in H2.
      * pose proof (within_contractCall host LatestAnswer (latestAnswer host) w2)
          as H3.
        destruct (executeWithRetry host _ 3 w2) as [[latest|e] w3];
          cbn [snd] in H3.
        -- cbn. exact (within_trans _ _ _ _ _ _ _ (within_trans _ _ _ _ _ _ _ H1 H2) H3).
        -- cbn.
           exact (within_trans _ _ _ _ _ _ _
                    (within_trans _ _ _ _ _ _ _ (within_trans _ _ _ _ _ _ _ H1 H2) H3)
                    (within_console _ _)).
      * cbn. apply (within_weaken (3 + 3 + 0) (7000 + 7000 + 0)); [|lia|lia].
        exact (within_trans _ _ _ _ _ _ _ (within_trans _ _ _ _ _ _ _ H1 H2)
                 (within_console _ _)).
    + cbn. apply (within_weaken (3 + 0) (7000 + 0)); [|lia|lia].
      exact (within_trans _ _ _ _ _ _ _ H1 (within_console _ _)).
  - unfold getLatestRoundData, limit, tryCatch, bind.
    pose proof (within_getDecimals host w) as H1.
    destruct (getDecimals host w) as [[d|e] w1]; cbn [snd] in H1.
    + pose proof (within_contractCall host LatestRoundData
                    (latestRoundData host) w1) as H2.
      destruct (executeWithRetry host _ 3 w1) as [[roundData|e] w2];
        cbn [snd] in H2.
      * pose proof (within_trans _ _ _ _ _ _ _ H1 H2) as H12.
        pose proof (within_trans _ _ _ _ _ _ _ H12
                      (within_console (RoundError
                         (TypeError "Cannot read properties of undefined (reading 'answer')")) w2))
          as Hu.
        pose proof (within_trans _ _ _ _ _ _ _ H12
                      (within_console (RoundError
                         (TypeError "Cannot read properties of null (reading 'answer')")) w2))
          as Hn.
        pose proof (within_trans _ _ _ _ _ _ _ H12
                      (within_console (RoundError
                         (RangeError "Invalid time value")) w2))
          as Hr.
        destruct roundData as [| |r]; cbn.
        -- exact Hn.
        -- exact Hu.
        -- unfold complete, toISOString. destruct (timeClip _); cbn.
           ++ exact H12.
           ++ exact Hr.
      * cbn. exact (within_trans _ _ _ _ _ _ _ (within_trans _ _ _ _ _ _ _ H1 H2)
                      (within_console _ _)).
    + cbn. apply (within_weaken (3 + 0) (7000 + 0)); [|lia|lia].
      exact (within_trans _ _ _ _ _ _ _ H1 (within_console _ _)).
  - cbv zeta. repeat split; vm_compute; reflexivity.
Qed.

(** *** Listeners across a rotation *)

Lemma mapSet_fresh k v m :
  ~ In k (map fst m) -> mapSet k v m = (m ++ [(k, v)])%list.
Proof.
  induction m as [|[k' v'] m IH]; intro H; cbn [mapSet app]; [reflexivity|].
  destruct (String.eqb_spec k k') as [E|E].
  - exfalso. apply H. left. symmetry. exact E.
  - f_equal. apply IH. intro Hin. apply H. right. exact Hin.
Qed.

Lemma reestablishOne_step (host : Host) u w k v :
  url (runner (contract (self w))) = u ->
  ~ In k (map fst (activeListeners (self w))) ->
  let w1 := reestablishOne host w (k, v) in
  let added := if installs host u (k, v) then [(k, v)] else [] in
  url (runner (contract (self w1))) = u /\
  activeListeners (self w1) = (activeListeners (self w) ++ [(k, v)])%list /\
  listeners (contract (self w1)) = (listeners (contract (self w)) ++ added)%list.
Proof.
  intros Hu Hk. cbv zeta. unfold reestablishOne, installs. cbn [fst].
  rewrite Hu.
  cbn [withSelf self setActiveListeners setContract activeListeners contract].
  rewrite (mapSet_fresh k v _ Hk).
  destruct (onRejects host u k) as [msg|].
  - rewrite app_nil_r. repeat split. exact Hu.
  - cbn [setListeners listeners runner]. repeat split. exact Hu.
Qed.

Lemma reestablish_fold (host : Host) u entries :
  forall w,
    url (runner (contract (self w))) = u ->
    NoDup (map fst entries) ->
    (forall k, In k (map fst entries) ->
               ~ In k (map fst (activeListeners (self w)))) ->
    let w' := fold_left (reestablishOne host) entries w in
    activeListeners (self w') = (activeListeners (self w) ++ entries)%list /\
    listeners (contract (self w'))
    = (listeners (contract (self w)) ++ filter (installs host u) entries)%list /\
    url (runner (contract (self w'))) = u.
Proof.
  induction entries as [|[k v] entries IH]; intros w Hu Hnd Hfresh; cbv zeta;
    cbn [fold_left filter].
  - rewrite !app_nil_r. repeat split. exact Hu.
  - cbn [map fst] in Hnd, Hfresh.
    apply NoDup_cons_iff in Hnd. destruct Hnd as [Hk Hnd'].
    destruct (reestablishOne_step host u w k v Hu (Hfresh k (or_introl eq_refl)))
      as (Hu1 & Ha1 & Hl1).
    destruct (IH (reestablishOne host w (k, v)) Hu1 Hnd') as (Ha & Hl & Hu').
    { intros k' Hin. rewrite Ha1, map_app, in_app_iff.
      intros [Hold|Hnew].
      - exact (Hfresh k' (or_intror Hin) Hold).
      - cbn [map fst In] in Hnew. destruct Hnew as [E|[]]. subst k'.
        exact (Hk Hin). }
    cbv zeta in Ha, Hl, Hu'. rewrite Ha, Hl, Hu', Ha1, Hl1.
    destruct (installs host u (k, v)); rewrite <- !app_assoc; repeat split.
Qed.



(** X23: on an object that has no monitor, [stopMonitoring] does nothing at
    all: the object, the timers and the console are left as they are.  (The
    server never starts a monitor, so its shutdown call has no effect.) *)
Theorem stopMonitoring_without_monitor (host : Host) (w : World) :
  reachable host w ->
  monitorInterval (self w) = None ->
  stopMonitoring host w = w.
Proof.
  intros Hreach Hm.
  destruct (wired_reachable host w Hreach) as (_ & _ & _ & _ & _ & Ha & Hl & _).
  unfold stopMonitoring, removeAllListeners. rewrite Hm.
  destruct w as [o c t n tr]. destruct o as [? ? ? ? ct ? ? ? ? ?].
  destruct ct. cbn in *. subst.
  destruct (removeAllListenersThrows host _); reflexivity.
Qed.

Lemma stopMonitoring_without_monitor_witness :
  let host := steady 689 in
  exists w,
    performAll host [GetCurrentPrice; QueryHistoricalEvents 50 50] (fresh host)
    = Some w /\
    stopMonitoring host w = w.
Proof.
  cbv zeta.
  destruct (performAll (steady 689) [GetCurrentPrice; QueryHistoricalEvents 50 50]
              (fresh (steady 689))) as [w|] eqn:Hrun.
  - exists w. split; [reflexivity|].
    apply (stopMonitoring_without_monitor (steady 689) w).
    + exists key, [GetCurrentPrice; QueryHistoricalEvents 50 50]. exact Hrun.
    + vm_compute in Hrun. inversion Hrun. reflexivity.
  - vm_compute in Hrun. discriminate.
Defined.

(** *** A batched query that meets no error *)

Lemma windowCalls_facts batches :
  forall w,
    self (windowCalls batches w) = self w /\
    trace (windowCalls batches w)
    = (trace w
         ++ map (fun b => Call (url (runner (contract (self w)))) (windowRequest b))
              batches)%list.
Proof.
  induction batches as [|b bs IH]; intro w; cbn [windowCalls fold_left map].
  - rewrite app_nil_r. split; reflexivity.
  - destruct (IH (noteCall (url (runner (contract (self w)))) (windowRequest b) w))
      as [Hs Ht].
    unfold windowCalls in Hs, Ht. rewrite Hs, Ht.
    cbn [noteCall self trace]. rewrite <- app_assoc. split; reflexivity.
Qed.

Lemma queryBatches_all_answered (host : Host) (logs : Z -> Z -> list EventLog) :
  (forall k u f t, queryFilter host k u (Some f) (Val t) = Return (logs f t)) ->
  forall batches w,
    queryBatches host batches w
    = (Return (map (fun b => Val (logs (from b) (to b))) batches),
       windowCalls batches w).
Proof.
  intros Hq batches.
  induction batches as [|b bs IH]; intro w; cbn [queryBatches map]; [reflexivity|].
  unfold bind, queryBatch, limit, tryCatch, executeWithRetry.
  rewrite (retryLoop_return host _ 3 2 0 w (logs (from b) (to b))
             (noteCall (url (runner (contract (self w)))) (windowRequest b) w))
    by (unfold contractCall; rewrite Hq; reflexivity).
  rewrite IH. reflexivity.
Qed.

Lemma flat_all_answered (results : list (list EventLog)) :
  flat (map Val results) = map Val (List.concat results).
Proof.
  unfold flat. induction results as [|r rs IH]; [reflexivity|].
  cbn [map flat_map List.concat]. rewrite IH, map_app. reflexivity.
Qed.

Lemma requestsOf_calls u (rs : list Request) :
  requestsOf (map (fun r => Call u r) rs) = rs.
Proof.
  induction rs as [|r rs IH]; [reflexivity|].
  cbn [map requestsOf flat_map app]. f_equal. exact IH.
Qed.

(** X24: a batched query whose windows are all answered at the first
    attempt asks for each window exactly once, in order, on the endpoint it
    started on, and hands [processEvents] the events of the windows
    concatenated in window order. *)
Theorem batched_query_concatenates_windows
  (host : Host) (blockRange batchSize head : Z) (w w1 : World)
  (logs : Z -> Z -> list EventLog) :
  0 < batchSize ->
  batchSize < blockRange ->
  executeWithRetry host (providerCall GetBlockNumber (getBlockNumber host)) 3
    (emit (Console (QueryingHistory blockRange)) w)
  = (Return (Val head), w1) ->
  (forall k u f t, queryFilter host k u (Some f) (Val t) = Return (logs f t)) ->
  exists batches w2,
    planQueries (Val head) blockRange batchSize = Some (Batches batches) /\
    let events := List.concat (map (fun b => logs (from b) (to b)) batches) in
    queryHistoricalEvents host blockRange batchSize w
    = Some (processEvents host (Val (map Val events)) w2) /\
    self w2 = self w1 /\
    requestsOf (since w1 w2) = map windowRequest batches.
Proof.
  intros Hb Hlt Hhead Hq.
  destruct (makeBatches_partition (head - blockRange) head batchSize Hb)
    as (batches & Hm & _); [lia|].
  assert (Hplan : planQueries (Val head) blockRange batchSize
                  = Some (Batches batches)).
  { unfold planQueries, subtractRange.
    destruct (Z.leb_spec blockRange batchSize); [lia|].
    rewrite Hm. reflexivity. }
  set (w11 := emit (Console (QueryingBatches (List.length batches))) w1).
  set (events := List.concat (map (fun b => logs (from b) (to b)) batches)).
  exists batches.
  exists (emit (Console (FoundEvents (List.length (map Val events))))
            (windowCalls batches w11)).
  split; [exact Hplan|]. cbv zeta. fold events.
  destruct (windowCalls_facts batches w11) as [Hs Ht].
  split; [|split].
  - unfold queryHistoricalEvents. rewrite Hhead, Hplan. fold w11.
    rewrite (queryBatches_all_answered host logs Hq batches w11).
    rewrite <- (map_map (fun b => logs (from b) (to b)) Val).
    rewrite flat_all_answered. reflexivity.
  - cbn [emit self]. rewrite Hs. reflexivity.
  - rewrite (since_app w1 _
               ([Console (QueryingBatches (List.length batches))]
                  ++ map (fun b => Call (url (runner (contract (self w11))))
                                     (windowRequest b)) batches
                  ++ [Console (FoundEvents (List.length (map Val events)))])).
    + rewrite !requestsOf_app.
      rewrite <- (map_map windowRequest
                    (fun r => Call (url (runner (contract (self w11)))) r)).
      rewrite requestsOf_calls. cbn. apply app_nil_r.
    + cbn [emit trace]. rewrite Ht. cbn [w11 emit trace].
      rewrite <- !app_assoc. reflexivity.
Qed.

Lemma batched_query_concatenates_windows_witness :
  let host := steady 689 in
  exists batches w2,
    planQueries (Val 1000) 120 50 = Some (Batches batches) /\
    let events := List.concat (map (fun b => [sampleLog (from b)]) batches) in
    queryHistoricalEvents host 120 50 (fresh host)
    = Some (processEvents host (Val (map Val events)) w2) /\
    self w2
    = self (snd (executeWithRetry host
                   (providerCall GetBlockNumber (getBlockNumber host)) 3
                   (emit (Console (QueryingHistory 120)) (fresh host)))) /\
    requestsOf
      (since (snd (executeWithRetry host
                     (providerCall GetBlockNumber (getBlockNumber host)) 3
                     (emit (Console (QueryingHistory 120)) (fresh host))))
         w2)
    = map windowRequest batches.
Proof.
  cbv zeta.
  apply (batched_query_concatenates_windows (steady 689) 120 50 1000
           (fresh (steady 689))
           (snd (executeWithRetry (steady 689)
                   (providerCall GetBlockNumber (getBlockNumber (steady 689))) 3
                   (emit (Console (QueryingHistory 120)) (fresh (steady 689)))))
           (fun f _ => [sampleLog f])).
  - lia.
  - lia.
  - vm_compute. reflexivity.
  - intros k u f t. reflexivity.
Defined.

(** *** The requests of a historical query *)

Lemma rotateAndWait_asks_nothing (host : Host) e i retries w :
  exists l,
    trace (rotateAndWait host e i retries w) = (trace w ++ l)%list /\
    requestsOf l = [].
Proof.
  destruct (within_rotateAndWait host e i retries w) as (l & Ht & _ & Hn & _).
  exists l. split; [exact Ht|].
  destruct (requestsOf l); [reflexivity | cbn in Hn; lia].
Qed.

(** A retried call asks the same request at most once per round, and at least
    once when there is a round. *)
Lemma retryLoop_asked (host : Host) {A} r
  (respond : nat -> option string -> Completion A) retries :
  forall remaining i w,
    exists n l,
      (n <= remaining)%nat /\
      ((1 <= remaining)%nat -> (1 <= n)%nat) /\
      trace (snd (retryLoop host (contractCall r respond) retries remaining i w))
      = (trace w ++ l)%list /\
      requestsOf l = repeat r n.
Proof.
  induction remaining as [|remaining IH]; intros i w.
  - exists 0%nat, []. cbn. rewrite app_nil_r. repeat split; lia.
  - cbn [retryLoop]. unfold contractCall at 1.
    set (u := url (runner (contract (self w)))).
    destruct (respond (calls w) u) as [a|e].
    + exists 1%nat, [Call u r]. cbn. repeat split; lia.
    + destruct (isRateLimit e || isFilterError e).
      * destruct (rotateAndWait_asks_nothing host e i retries (noteCall u r w))
          as (lw & Hw & Hrw).
        destruct (IH (S i) (rotateAndWait host e i retries (noteCall u r w)))
          as (n & l & Hn & _ & Ht & Hr).
        exists (S n), ([Call u r] ++ lw ++ l)%list.
        split; [lia|]. split; [lia|]. split.
        -- rewrite Ht, Hw. cbn [noteCall trace]. rewrite <- !app_assoc.
           reflexivity.
        -- rewrite !requestsOf_app, Hrw, Hr. reflexivity.
      * destruct (Nat.eqb (S i) retries).
        -- exists 1%nat, [Call u r]. cbn. repeat split; lia.
        -- destruct (IH (S i) (noteCall u r w)) as (n & l & Hn & _ & Ht & Hr).
           exists (S n), ([Call u r] ++ l)%list.
           split; [lia|]. split; [lia|]. split.
           ++ rewrite Ht. cbn [noteCall trace]. rewrite <- !app_assoc.
              reflexivity.
           ++ rewrite requestsOf_app, Hr. reflexivity.
Qed.

Lemma queryBatch_asked (host : Host) batch w :
  exists r w' n l,
    queryBatch host batch w = (Return r, w') /\
    (1 <= n <= 3)%nat /\
    trace w' = (trace w ++ l)%list /\
    requestsOf l = repeat (windowRequest batch) n.
Proof.
  destruct (retryLoop_asked host (windowRequest batch)
              (fun k u => queryFilter host k u (Some (from batch)) (Val (to batch)))
              3 3 0 w) as (n & l & Hn & Hpos & Ht & Hr).
  unfold queryBatch, limit, tryCatch, executeWithRetry.
  unfold windowRequest in Ht.
  destruct (retryLoop host _ 3 3 0 w) as [[r|e] w1]; cbn [snd] in Ht.
  - exists r, w1, n, l. repeat split; try lia; assumption.
  - eexists. eexists. exists n, (l ++ [Console (BatchError (from batch) (to batch)
                                                  (message e))])%list.
    split; [reflexivity|]. split; [lia|]. split.
    + cbn [emit trace]. rewrite Ht, <- app_assoc. reflexivity.
    + rewrite requestsOf_app, Hr. cbn. apply app_nil_r.
Qed.

(** The batch tasks ask for their windows in turn. *)
Lemma queryBatches_asked (host : Host) batches :
  forall w,
    exists rs w' l,
      queryBatches host batches w = (Return rs, w') /\
      trace w' = (trace w ++ l)%list /\
      askedInTurn (map windowRequest batches) (requestsOf l).
Proof.
  induction batches as [|b bs IH]; intro w; cbn [queryBatches map].
  - exists [], w, []. rewrite app_nil_r. repeat split. constructor.
  - destruct (queryBatch_asked host b w) as (r & w1 & n & l1 & Hq & Hn & Ht1 & Hr1).
    destruct (IH w1) as (rs & w2 & l2 & Hqs & Ht2 & Hr2).
    exists (r :: rs), w2, (l1 ++ l2)%list.
    unfold bind. rewrite Hq, Hqs. split; [reflexivity|]. split.
    + rewrite Ht2, Ht1, app_assoc. reflexivity.
    + rewrite requestsOf_app, Hr1. constructor; assumption.
Qed.

(** C3: for every head block and every provider, once the head is read a
    query over the last 120 blocks in batches of 50 starts at [head - 120]
    and asks the provider for exactly the three windows [head-120, head-71],
    [head-70, head-21] and [head-20, head], in this order and for no other
    log, each window once, or again while its retry lasts (at most three
    times); when every log query is answered at once these are exactly
    three requests.  Whenever the range does not exceed the batch size, the
    query asks for the single window [head - blockRange, head].  What the
    method returns is [processEvents] of the events received (or, for a
    single window whose query throws, an empty list). *)
Theorem historical_query_windows (host : Host) (head : Z) (w : World) :
  let first := QueryFilter (Some (head - 120)) (Val (head - 71)) in
  let second := QueryFilter (Some (head - 70)) (Val (head - 21)) in
  let third := QueryFilter (Some (head - 20)) (Val head) in
  subtractRange (Val head) 120 = Some (head - 120) /\
  (forall w1,
      headRead host 120 w head w1 ->
      exists w2 events,
        queryHistoricalEvents host 120 50 w
        = Some (processEvents host (Val events) w2) /\
        askedInTurn [first; second; third] (requestsOf (since w1 w2)) /\
        forall logs,
          answersLogs host logs ->
          requestsOf (since w1 w2) = [first; second; third] /\
          events
          = map Val (logs (head - 120) (head - 71) ++ logs (head - 70) (head - 21)
                       ++ logs (head - 20) head)%list)
  /\
  (forall blockRange batchSize w1,
      blockRange <= batchSize ->
      headRead host blockRange w head w1 ->
      let only := QueryFilter (Some (head - blockRange)) (Val head) in
      exists w2,
        askedInTurn [only] (requestsOf (since w1 w2)) /\
        ((exists events,
             queryHistoricalEvents host blockRange batchSize w
             = Some (processEvents host events w2)) \/
         (exists e,
             queryHistoricalEvents host blockRange batchSize w
             = Some (Return [], emit (Console (HistoryError e)) w2))) /\
        forall logs,
          answersLogs host logs ->
          requestsOf (since w1 w2) = [only] /\
          queryHistoricalEvents host blockRange batchSize w
          = Some (processEvents host
                    (Val (map Val (logs (head - blockRange) head))) w2)).
Proof.
  intros first second third. split; [reflexivity|]. split.
  - intros w1 Hhead.
    set (batches := [ {| from := head - 120; to := head - 71 |};
                      {| from := head - 70; to := head - 21 |};
                      {| from := head - 20; to := head |} ]).
    set (w11 := emit (Console (QueryingBatches 3)) w1).
    destruct (queryBatches_asked host batches w11)
      as (rs & w3 & l & Hq & Ht & Hasked).
    exists (emit (Console (FoundEvents (List.length (flat rs)))) w3), (flat rs).
    split; [|split].
    + rewrite (queryHistoricalEvents_three_batches host w w1 head Hhead).
      fold batches w11. rewrite Hq. reflexivity.
    + rewrite (since_app w1 _
                 ([Console (QueryingBatches 3)] ++ l
                    ++ [Console (FoundEvents (List.length (flat rs)))])).
      * rewrite !requestsOf_app. cbn [requestsOf flat_map app].
        rewrite app_nil_r. exact Hasked.
      * cbn [emit trace]. rewrite Ht. cbn [w11 emit trace].
        rewrite <- !app_assoc. reflexivity.
    + intros logs Hlogs.
      pose proof (queryBatches_all_answered host logs Hlogs batches w11) as Hall.
      rewrite Hq in Hall. injection Hall as Hrs Hw3. clear Hq Ht Hasked.
      rewrite Hrs, Hw3.
      split.
      * rewrite (since_app w1 _
                   ([Console (QueryingBatches 3)]
                      ++ map (fun b => Call (url (runner (contract (self w11))))
                                         (windowRequest b)) batches
                      ++ [Console (FoundEvents
                                     (List.length
                                        (flat (map (fun b => Val (logs (from b) (to b)))
                                                 batches))))])).
        -- reflexivity.
        -- unfold batches, w11. cbn. rewrite <- !app_assoc. reflexivity.
      * unfold flat. cbn [flat_map]. rewrite !map_app, app_nil_r.
        reflexivity.
  - intros blockRange batchSize w1 Hle Hhead only.
    destruct (retryLoop_asked host only
                (fun k u => queryFilter host k u (Some (head - blockRange))
                              (Val head))
                3 3 0 w1) as (n & l & Hn & Hpos & Ht & Hr).
    assert (Hrun : queryHistoricalEvents host blockRange batchSize w
                   = match
                       executeWithRetry host
                         (contractCall only
                            (fun k u => queryFilter host k u
                                          (Some (head - blockRange)) (Val head)))
                         3 w1
                     with
                     | (Throw error, w2) =>
                         Some (Return [], emit (Console (HistoryError error)) w2)
                     | (Return events, w2) =>
                         Some (processEvents host (asElements events) w2)
                     end).
    { unfold queryHistoricalEvents. unfold headRead in Hhead. rewrite Hhead.
      rewrite (planQueries_single head blockRange batchSize Hle). reflexivity. }
    unfold executeWithRetry in Hrun.
    exists (snd (retryLoop host
                   (contractCall only
                      (fun k u => queryFilter host k u (Some (head - blockRange))
                                    (Val head)))
                   3 3 0 w1)).
    split; [|split].
    + rewrite (since_app w1 _ l Ht), Hr.
      rewrite <- (app_nil_r (repeat only n)). constructor; [lia | constructor].
    + destruct (retryLoop host _ 3 3 0 w1) as [[events|e] w2]; cbn [snd];
        [left | right]; eauto.
    + intros logs Hlogs.
      rewrite (retryLoop_return host _ 3 2 0 w1 (logs (head - blockRange) head)
                 (noteCall (url (runner (contract (self w1)))) only w1))
        in Hrun |- *
        by (unfold contractCall; rewrite Hlogs; reflexivity).
      cbn [snd]. split; [|exact Hrun].
      rewrite (since_app w1 _ [Call (url (runner (contract (self w1)))) only]);
        reflexivity.
Qed.

Lemma historical_query_windows_witness :
  let host := steady 689 in
  let w := fresh host in
  exists w1 w2 events,
    headRead host 120 w 1000 w1 /\
    queryHistoricalEvents host 120 50 w
    = Some (processEvents host (Val events) w2) /\
    requestsOf (since w1 w2)
    = [ QueryFilter (Some 880) (Val 929); QueryFilter (Some 930) (Val 979);
        QueryFilter (Some 980) (Val 1000) ] /\
    events = [Val (sampleLog 880); Val (sampleLog 930); Val (sampleLog 980)].
Proof.
  cbv zeta.
  pose (w1 := snd (executeWithRetry (steady 689)
                     (providerCall GetBlockNumber (getBlockNumber (steady 689))) 3
                     (emit (Console (QueryingHistory 120)) (fresh (steady 689))))).
  assert (Hhead : headRead (steady 689) 120 (fresh (steady 689)) 1000 w1)
    by (vm_compute; reflexivity).
  destruct (historical_query_windows (steady 689) 1000 (fresh (steady 689)))
    as (_ & Hbatched & _).
  destruct (Hbatched w1 Hhead) as (w2 & events & Hrun & _ & Hexact).
  destruct (Hexact (fun f _ => [sampleLog f])) as [Hreq Hev].
  - intros k u f t. reflexivity.
  - exists w1, w2, events. split; [exact Hhead|]. split; [exact Hrun|].
    split; [exact Hreq | exact Hev].
Defined.

End Further.

(** ** Getters that overlap *)

Module Overlapping.
Import Js NGNUSDOracle Scenario Notions Overlap Properties Further.

Section Final.

Variable host : Host.
Context {A : Type}.
Variable g : Getter A.

Lemma resumes_over n (st : Stage A) w :
  inFlight st = false -> resumes host g n (st, w) = (st, w).
Proof.
  intro H. induction n as [|n IH]; [reflexivity|].
  cbn [resumes fst snd].
  destruct st as [i answer|i|v|e]; try discriminate; exact IH.
Qed.

Lemma resumes_settle n v w :
  resumes host g n (settle g v w) = settle g v w.
Proof. apply resumes_over. reflexivity. Qed.

(** A call resumed until it is over does what the retry does when it runs to
    completion, and then writes the slot. *)
Lemma resumes_round :
  forall remaining i w n,
    (i + remaining = attempts)%nat ->
    (2 * remaining <= n)%nat ->
    resumes host g n (round host g i w)
    = finish g
        (retryLoop host (contractCall (g_request g) (g_respond g host))
           attempts remaining i w).
Proof.
  induction remaining as [|remaining IH]; intros i w n Hi Hn.
  - unfold round. replace (Nat.ltb i attempts) with false
      by (symmetry; apply Nat.ltb_ge; lia).
    cbn [retryLoop finish]. apply resumes_settle.
  - unfold round. replace (Nat.ltb i attempts) with true
      by (symmetry; apply Nat.ltb_lt; lia).
    cbn [retryLoop]. unfold attempt.
    destruct (contractCall (g_request g) (g_respond g host) w) as [[a|e] w1].
    + destruct n as [|n]; [lia|]. cbn [resumes fst snd resume finish].
      apply resumes_settle.
    + destruct n as [|n]; [lia|]. cbn [resumes fst snd resume].
      destruct (isRateLimit e || isFilterError e).
      * destruct n as [|n]; [lia|]. cbn [resumes fst snd resume].
        apply IH; lia.
      * destruct (Nat.eqb (S i) attempts).
        -- cbn [finish]. apply resumes_over. reflexivity.
        -- apply IH; lia.
Qed.

(** One call of the getter with nothing else in between is the getter run to
    completion. *)
Lemma alone w n :
  (6 <= n)%nat ->
  resumes host g n (begin host g w)
  = match g_slot g (self w) with
    | Null =>
        finish g
          (executeWithRetry host (contractCall (g_request g) (g_respond g host))
             attempts w)
    | v => (Resolved v, w)
    end.
Proof.
  intro Hn. unfold begin.
  destruct (g_slot g (self w)).
  - apply resumes_round; [reflexivity | cbn; lia].
  - apply resumes_over. reflexivity.
  - apply resumes_over. reflexivity.
Qed.

Lemma setAt_same {X} (l : list X) :
  forall t x, nth_error l t = Some x -> setAt l t x = l.
Proof.
  induction l as [|y l IH]; intros [|t] x H; cbn in H |- *; try discriminate.
  - inversion H. reflexivity.
  - f_equal. apply IH, H.
Qed.

Lemma idle_nth (s : @Calls A) t st :
  idle s -> nth_error (pending s) t = Some st -> inFlight st = false.
Proof.
  unfold idle. intros H Hn. rewrite forallb_forall in H.
  specialize (H st (nth_error_In _ _ Hn)).
  destruct (inFlight st); [discriminate | reflexivity].
Qed.

Lemma begin_populated w :
  g_slot g (self w) <> Null ->
  begin host g w = (Resolved (g_slot g (self w)), w).
Proof.
  intro H. unfold begin.
  destruct (g_slot g (self w)); [contradiction | reflexivity | reflexivity].
Qed.

(** Once the slot holds a value and no call of the getter is suspended, no
    turn changes the slot: a call that begins returns the value at once and
    leaves the world alone, a call that is over has nothing left to do. *)
Lemma turns_idle :
  forall es (s : @Calls A),
    g_slot g (self (world s)) <> Null ->
    idle s ->
    apart g es ->
    let v := g_slot g (self (world s)) in
    let s' := turns host g s es in
    g_slot g (self (world s')) = v /\
    idle s' /\
    pending s' = (pending s ++ repeat (Resolved v) (starts es))%list /\
    world s' = elsewhere es (world s).
Proof.
  induction es as [|e es IH]; intros s Hv Hidle Hapart; cbv zeta.
  - cbn. rewrite app_nil_r. repeat split. exact Hidle.
  - assert (Hrest : apart g es).
    { intros f Hin. apply Hapart. right. exact Hin. }
    unfold turns, elsewhere. cbn [fold_left].
    fold (turns host g (turn host g s e) es).
    destruct e as [|t|f]; cbn [turn starts].
    + rewrite (begin_populated _ Hv).
      match goal with
      | |- context [turns host g ?x es] =>
          destruct (IH x Hv) as (H1 & H2 & H3 & H4); [|exact Hrest|]
      end.
      { unfold idle in *. cbn [pending]. rewrite forallb_app, Hidle.
        reflexivity. }
      cbv zeta in H1, H2, H3, H4. cbn [world pending] in H1, H3, H4.
      rewrite H1, H3, H4, <- app_assoc. repeat split. exact H2.
    + destruct (nth_error (pending s) t) as [st|] eqn:Hn.
      * pose proof (idle_nth s t st Hidle Hn) as Hover.
        assert (Hres : resume host g st (world s) = (st, world s))
          by (destruct st; try discriminate; reflexivity).
        rewrite Hres, (setAt_same _ _ _ Hn).
        destruct s as [w ps]. cbn [world pending] in *.
        exact (IH {| world := w; pending := ps |} Hv Hidle Hrest).
      * exact (IH s Hv Hidle Hrest).
    + assert (Hf : g_slot g (self (f (world s))) = g_slot g (self (world s))).
      { apply Hapart. left. reflexivity. }
      match goal with
      | |- context [turns host g ?x es] =>
          destruct (IH x) as (H1 & H2 & H3 & H4);
            [cbn [world]; rewrite Hf; exact Hv | exact Hidle | exact Hrest |]
      end.
      cbv zeta in H1, H2, H3, H4. cbn [world pending] in H1, H3, H4.
      rewrite H1, H3, H4, Hf. repeat split. exact H2.
Qed.

(** Three rate-limit or filter errors in a row, whatever comes after them,
    make the retry resolve with [undefined]. *)
Lemma retryLoop_burst :
  forall remaining i w,
    (forall j u, (j < remaining)%nat ->
                 exists e, g_respond g host (calls w + j)%nat u = Throw e /\
                           isTransient e = true) ->
    exists w0,
      retryLoop host (contractCall (g_request g) (g_respond g host)) attempts
        remaining i w
      = (Return Undefined, w0).
Proof.
  induction remaining as [|remaining IH]; intros i w H.
  - exists w. reflexivity.
  - destruct (H 0%nat (url (runner (contract (self w))))) as (e & He & Ht);
      [lia|].
    rewrite Nat.add_0_r in He.
    rewrite (retryLoop_transient host _ _ _ _ w e
               (noteCall (url (runner (contract (self w)))) (g_request g) w))
      by (unfold contractCall; rewrite ?He; reflexivity || exact Ht).
    apply IH. intros j u Hj.
    rewrite calls_rotateAndWait. cbn [noteCall calls].
    destruct (H (S j) u) as (e' & He' & Ht'); [lia|].
    exists e'. split; [|exact Ht'].
    rewrite <- He'. f_equal. lia.
Qed.

End Final.

(** *** A cached value *)




(** *** A first fetch that is rate-limited *)




End Overlapping.
